(** * rstcheck: checking the code blocks of a reStructuredText document

    A shallow embedding of [rstcheck.py] (version 0.2).  The script parses
    each input file with docutils, walks the document tree with a visitor
    that hands every [code-block] literal block to an external syntax
    checker, collects one boolean per recorded result and derives the
    process exit status from the number of [False] entries.

    Python's effects are explicit here: a computation takes the trace of
    effects performed so far and returns either a value or a raised
    exception, together with the extended trace.  Everything outside the
    script (the command-line parser, the terminal, the file system, the
    docutils parser, the temporary-file facility and the checker
    processes) is gathered in a record of oracles, [Platform]. *)

From stdpp Require Import base strings list gmap pretty.

Local Open Scope string_scope.
Local Open Scope list_scope.

(** ** Strings *)

(** Python text is modelled by [string]; a character stands for a code
    point below 256. *)

Definition NL : string := String (Ascii.ascii_of_nat 10) EmptyString.
Definition ESC : string := String (Ascii.ascii_of_nat 27) EmptyString.

Definition GREEN : string := ESC +:+ "[32m".
Definition RED : string := ESC +:+ "[31m".
Definition END : string := ESC +:+ "[0m".

(** [sep.join(parts)] *)
Definition join (sep : string) (parts : list string) : string :=
  String.concat sep parts.

(** [str.isspace] on one character (the white space of Python's text type
    among the code points below 256). *)
Definition isspace (c : Ascii.ascii) : bool :=
  let n := Ascii.nat_of_ascii c in
  (((9 <=? n) && (n <=? 13)) || ((28 <=? n) && (n <=? 32))
   || (n =? 133) || (n =? 160))%nat.

Fixpoint lstrip (s : string) : string :=
  match s with
  | String c s' => if isspace c then lstrip s' else s
  | EmptyString => EmptyString
  end.

Fixpoint rstrip (s : string) : string :=
  match s with
  | String c s' =>
      match rstrip s' with
      | EmptyString => if isspace c then EmptyString else String c EmptyString
      | r => String c r
      end
  | EmptyString => EmptyString
  end.

(** [s.strip()] *)
Definition strip (s : string) : string := rstrip (lstrip s).

(** ['{}'.format(x)] for the values the script formats: text, an integer
    or [None]. *)
Definition format_str (o : option string) : string :=
  match o with Some s => s | None => "None" end.

Definition format_int (o : option Z) : string :=
  match o with Some z => pretty z | None => "None" end.

(** ** Exceptions and effects *)

Inductive exn : Type :=
| SkipNode                       (* docutils.nodes.SkipNode *)
| SystemMessage (msg : string)   (* docutils.utils.SystemMessage *)
| IOError (msg : string)
| OSError (msg : string)
| TypeError (msg : string)
| UnicodeDecodeError (msg : string)
| SystemExit (status : Z).       (* sys.exit(status) *)

Inductive event : Type :=
| Stderr (text : string)             (* print(text, file=sys.stderr) *)
| Stdout (text : string)             (* text printed on standard output *)
| Open (filename : string)           (* the script's open(filename) *)
| TempCreate (name : string)         (* tempfile.NamedTemporaryFile *)
| TempWrite (name text : string)     (* write + flush *)
| Spawn (argv : list string)         (* subprocess.Popen(argv) *)
| Traceback (e : exn).               (* uncaught exception report *)

Definition World : Type := list event.

Inductive outcome (A : Type) : Type :=
| Returned (a : A)
| Raised (e : exn).
Arguments Returned {A} a.
Arguments Raised {A} e.

(** A computation over a mutable state [S]: state changes made before an
    exception is raised persist, as in Python. *)
Definition Py (S A : Type) : Type := S → outcome A * S.

Definition ret {S A} (a : A) : Py S A := λ s, (Returned a, s).

Definition bind {S A B} (c : Py S A) (k : A → Py S B) : Py S B :=
  λ s, match c s with
       | (Returned a, s') => k a s'
       | (Raised e, s') => (Raised e, s')
       end.

Definition raise {S A} (e : exn) : Py S A := λ s, (Raised e, s).

(** [try: c except <handled>: h] where [handler e = Some h] when the
    except clause matches [e]. *)
Definition try_except {S A} (c : Py S A) (handler : exn → option (Py S A))
  : Py S A :=
  λ s, match c s with
       | (Returned a, s') => (Returned a, s')
       | (Raised e, s') =>
           match handler e with
           | Some h => h s'
           | None => (Raised e, s')
           end
       end.

Definition get {S} : Py S S := λ s, (Returned s, s).
Definition modify {S} (f : S → S) : Py S unit := λ s, (Returned tt, f s).

Declare Scope py_scope.
Delimit Scope py_scope with py.
Notation "x <- c ;; k" := (bind c (λ x, k))
  (at level 100, c at next level, right associativity) : py_scope.
Notation "c ;;; k" := (bind c (λ _, k))
  (at level 100, right associativity) : py_scope.
Open Scope py_scope.

Definition emit (e : event) : Py World unit := modify (λ w, w ++ [e]).

(** Bytes read from a file or from a stream of a process, by what
    decoding makes of them: the text they decode to, or the message of
    the [UnicodeDecodeError] that decoding them raises. *)
Inductive bytes : Type :=
| Decodes (text : string)
| Undecodable (msg : string).

(** [data.decode(...)] *)
Definition decode {S} (data : bytes) : Py S string :=
  match data with
  | Decodes text => ret text
  | Undecodable msg => raise (UnicodeDecodeError msg)
  end.

(** The text written to standard error, in order. *)
Definition stderr_of (w : World) : list string :=
  omap (λ e, match e with Stderr t => Some t | _ => None end) w.

Definition spawned_of (w : World) : list (list string) :=
  omap (λ e, match e with Spawn a => Some a | _ => None end) w.

Definition opened_of (w : World) : list string :=
  omap (λ e, match e with Open f => Some f | _ => None end) w.

Definition temp_count (w : World) : nat :=
  length (omap (λ e, match e with TempCreate n => Some n | _ => None end) w).

(** ** Document trees *)

(** A docutils node, reduced to what the visitor reads: the class name used
    for dispatch, the [classes] and [language] attributes ([None] when the
    node has no [language] attribute), the raw source text, the source line
    ([None] when docutils recorded none) and the children. *)
#[local] Unset Elimination Schemes.
Inductive node : Type :=
  Node {
    tagname : string;
    classes : list string;
    language : option string;
    rawsource : string;
    line : option Z;
    children : list node
  }.
#[local] Set Elimination Schemes.

(** [nodes.Text(data)] *)
Definition Text (data : string) : node :=
  Node "Text" [] None data None [].

(** [nodes.literal_block(rawsource, text)] *)
Definition literal_block (rawsource text : string) : node :=
  Node "literal_block" [] None rawsource None
       (if decide (text = EmptyString) then [] else [Text text]).

(** ** The platform *)

(** What [parser.parse_args()] makes of a command line: the namespace,
    with at least one file since [files] has [nargs='+'], or the exit of
    the process ([--help], or a usage error) with the text argparse
    prints on standard output and on standard error before it. *)
Inductive command_line : Type :=
| Namespace (file : string) (files : list string)
            (strict_rst strict_warnings : bool)
| Exit (status : Z) (out err : list string).

Record Platform : Type := {
  (** argparse on [sys.argv[1:]] *)
  argparse : list string → command_line;
  (** [sys.stderr.isatty()] *)
  isatty : bool;
  (** [open(filename)] and [read()]: the bytes of the file, decoded by
      [read()], or the [IOError] message of [open] *)
  read_file : string → bytes + string;
  (** docutils parsing [contents] from [source_path] under
      [settings_overrides]: the text its reporter writes to standard error,
      and the document tree or the message of the [SystemMessage] raised *)
  parse : string → string → gmap string Z → list string * (node + string);
  (** [tempfile.NamedTemporaryFile(mode='w', suffix=...)]: the name of the
      temporary file created when [k] were created before, or the
      [OSError] message *)
  temp_name : nat → string → string + string;
  (** [write] and [flush] of [text] to the file [name]: [Some msg] when
      they raise [IOError] *)
  temp_write : string → string → option string;
  (** [subprocess.Popen(argv, ...)] followed by [communicate()], the last
      argument naming a file that holds [text]: the return code with the
      bytes of standard output and of standard error, or the [OSError]
      message when the program cannot be launched *)
  popen : list string → string → (Z * bytes * bytes) + string
}.

(** ** The script *)

Inductive class_arg : Type :=
| ClassName (cname : string)
| ClassList (cnames : list string).

(** [node_has_class(node, classes)]: a single name is wrapped in a list,
    and the loop returns [True] at the first name found among the node's
    classes. *)
Definition node_has_class (n : node) (cls : class_arg) : bool :=
  let cls := match cls with
             | ClassList l => l
             | ClassName c => [c]
             end in
  existsb (λ cname, bool_decide (cname ∈ classes n)) cls.

Module CodeBlockDirective.

(** [CodeBlockDirective.run], from the directive's arguments and content
    lines. *)
Definition run (arguments content : list string) : list node :=
  let language := match arguments !! 0%nat with
                  | Some a => a
                  | None => EmptyString   (* except IndexError *)
                  end in
  let code := join NL content in
  let literal := literal_block code code in
  [ Node (tagname literal) (classes literal ++ ["code-block"])
         (Some language) (rawsource literal) (line literal)
         (children literal) ].

End CodeBlockDirective.

(** The dictionary literal of [visit_literal_block]: language tag to file
    extension and command. *)
Definition checkers (error_flag : list string)
  : gmap string (string * list string) :=
  <[ "bash" := (".bash", ["bash"; "-n"]) ]>
  (<[ "c" := (".c", ["gcc"; "-fsyntax-only"; "-O3"; "-std=c99";
                     "-pedantic"; "-Wall"; "-Wextra"] ++ error_flag) ]>
  (<[ "cpp" := (".cpp", ["g++"; "-std=c++0x"; "-pedantic"; "-fsyntax-only";
                         "-O3"; "-Wall"; "-Wextra"] ++ error_flag) ]>
  (<[ "python" := (".py", ["python"; "-m"; "compileall"; "-q"]) ]> ∅))).

(** [error_flag = (['-Werror'] if self.strict_warnings else [])] *)
Definition error_flag (strict_warnings : bool) : list string :=
  if strict_warnings then ["-Werror"] else [].

(** [{...}.get(language)], where [language] may be [None]. *)
Definition checkers_get (error_flag : list string) (language : option string)
  : option (string * list string) :=
  match language with
  | Some tag => checkers error_flag !! tag
  | None => None
  end.

Section Script.

Context (E : Platform).

Definition print_stderr (text : string) : Py World unit :=
  emit (Stderr text).

(** The text [inform] prints: coloured when standard error is a
    terminal. *)
Definition colored (text color : string) : string :=
  if isatty E then color +:+ text +:+ END else text.

(** [inform(text, color)] *)
Definition inform (text color : string) : Py World unit :=
  let text := colored text color in
  print_stderr text.

Definition NamedTemporaryFile (suffix : string) : Py World string :=
  w <- get ;;
  match temp_name E (temp_count w) suffix with
  | inl name => emit (TempCreate name) ;;; ret name
  | inr msg => raise (OSError msg)
  end.

Definition write_flush (name text : string) : Py World unit :=
  match temp_write E name text with
  | None => emit (TempWrite name text)
  | Some msg => raise (IOError msg)
  end.

(** [Popen(argv, ...)] and [communicate()]; [text] is what the file named
    by the last argument holds. *)
Definition Popen (argv : list string) (text : string)
  : Py World (Z * bytes * bytes) :=
  emit (Spawn argv) ;;;
  match popen E argv text with
  | inl r => ret r
  | inr msg => raise (OSError msg)
  end.

Definition open_read (filename : string) : Py World string :=
  emit (Open filename) ;;;
  match read_file E filename with
  | inl data => decode data
  | inr msg => raise (IOError msg)
  end.

End Script.

Module CheckTranslator.

(** The visitor object: its attributes set by [__init__]. *)
Record t : Type := {
  strict_warnings : bool;
  summary : list bool;
  filename : string
}.

Definition init (strict_warnings : bool) (filename : string) : t :=
  {| strict_warnings := strict_warnings; summary := [];
     filename := filename |}.

(** Visitor methods run over the visitor object and the world. *)
Definition State : Type := t * World.

Definition self : Py State t := λ s, (Returned (fst s), s).

Definition world {A} (c : Py World A) : Py State A :=
  λ s, let (r, w') := c (snd s) in (r, (fst s, w')).

(** The object after [self.summary.append(value)]. *)
Definition appended (this : t) (value : bool) : t :=
  {| strict_warnings := strict_warnings this;
     summary := summary this ++ [value];
     filename := filename this |}.

(** [self.summary.append(value)] *)
Definition summary_append (value : bool) : Py State unit :=
  modify (λ s, (appended (fst s) value, snd s)).

(** [CheckTranslator.visit_literal_block] *)
Definition visit_literal_block (E : Platform) (node : node)
  : Py State unit :=
  if negb (node_has_class node (ClassName "code-block")) then ret tt
  else
    let language := language node in
    this <- self ;;
    let error_flag := error_flag (strict_warnings this) in
    let result := checkers_get error_flag language in
    match result with
    | Some (extension, arguments) =>
        temporary_file <- world (NamedTemporaryFile E extension) ;;
        world (write_flush E temporary_file (rawsource node)) ;;;
        world (print_stderr (rawsource node)) ;;;
        world (inform E "Okay" GREEN) ;;;
        process <- world (Popen E (arguments ++ [temporary_file])
                                (rawsource node)) ;;
        let '(returncode, stdout, stderr) := process in
        out <- decode stdout ;;
        err <- decode stderr ;;
        let output := strip (join NL [out; err]) in
        if (returncode =? 0)%Z then summary_append true
        else
          world (inform E (filename this +:+ ":" +:+ format_int (line node)
                           +:+ ": " +:+ output) RED) ;;;
          summary_append false
    | None =>
        world (inform E ("Unknown language: " +:+ format_str language)
                      RED) ;;;
        if strict_warnings this then summary_append false else ret tt
    end ;;;
    raise SkipNode.

(** [unknown_visit] and [unknown_departure]: ignore. *)
Definition unknown_visit (node : node) : Py State unit := ret tt.
Definition unknown_departure (node : node) : Py State unit := ret tt.

(** docutils' dispatch on the node's class name: [visit_literal_block]
    is the only specialised method of the visitor. *)
Definition dispatch_visit (E : Platform) (node : node) : Py State unit :=
  if decide (tagname node = "literal_block")
  then visit_literal_block E node
  else unknown_visit node.

Definition dispatch_departure (node : node) : Py State unit :=
  unknown_departure node.

(** Modelled from the spec: docutils' [Node.walkabout] is a collaborator
    whose code is not part of the script.  It visits the node, then its
    children in document order, then departs; a [SkipNode] raised by the
    visit ends the processing of that node without descending and
    without departure, and any other exception propagates.  The result
    is the stop flag of the traversal. *)
Fixpoint walkabout (E : Platform) (n : node) : Py State bool :=
  λ s,
    match dispatch_visit E n s with
    | (Raised SkipNode, s1) => (Returned false, s1)
    | (Raised e, s1) => (Raised e, s1)
    | (Returned _, s1) =>
        let walk :=
          fix walk (cs : list node) : Py State bool :=
            λ s,
              match cs with
              | [] => (Returned false, s)
              | c :: cs' =>
                  match walkabout E c s with
                  | (Returned true, s') => (Returned true, s')
                  | (Returned false, s') => walk cs' s'
                  | (Raised e, s') => (Raised e, s')
                  end
              end in
        match walk (children n) s1 with
        | (Returned stop, s2) =>
            match dispatch_departure n s2 with
            | (Returned _, s3) => (Returned stop, s3)
            | (Raised e, s3) => (Raised e, s3)
            end
        | (Raised e, s2) => (Raised e, s2)
        end
    end.

(** The loop of [walkabout] over the children of a node. *)
Fixpoint walk_children (E : Platform) (cs : list node) : Py State bool :=
  λ s,
    match cs with
    | [] => (Returned false, s)
    | c :: cs' =>
        match walkabout E c s with
        | (Returned true, s') => (Returned true, s')
        | (Returned false, s') => walk_children E cs' s'
        | (Raised e, s') => (Raised e, s')
        end
    end.

End CheckTranslator.

Module CheckWriter.

Record t : Type := {
  strict_warnings : bool;
  summary : list bool;
  filename : string
}.

Definition init (strict_warnings : bool) (filename : string) : t :=
  {| strict_warnings := strict_warnings; summary := [];
     filename := filename |}.

(** [CheckWriter.translate]: run a fresh [CheckTranslator] over the
    document and add its summary to the writer's.  The updated writer
    object is the result. *)
Definition translate (E : Platform) (this : t) (document : node)
  : Py World t :=
  λ w,
    let visitor :=
      CheckTranslator.init (strict_warnings this) (filename this) in
    match CheckTranslator.walkabout E document (visitor, w) with
    | (Returned _, (visitor, w')) =>
        (Returned {| strict_warnings := strict_warnings this;
                     summary := summary this
                                ++ CheckTranslator.summary visitor;
                     filename := filename this |}, w')
    | (Raised e, (_, w')) => (Raised e, w')
    end.

End CheckWriter.

(** The docutils reporter writing its system messages. *)
Fixpoint report_all (msgs : list string) : Py World unit :=
  match msgs with
  | [] => ret tt
  | m :: msgs' => print_stderr m ;;; report_all msgs'
  end.

(** Modelled from the spec: docutils' [core.publish_string] is a
    collaborator.  It parses the text, its reporter writing to standard
    error and raising [SystemMessage] at the halt level, and then has the
    writer translate the document. *)
Definition publish_string (E : Platform) (contents : string)
    (writer : CheckWriter.t) (source_path : string)
    (settings_overrides : gmap string Z) : Py World CheckWriter.t :=
  let (report, r) := parse E source_path contents settings_overrides in
  report_all report ;;;
  match r with
  | inl document => CheckWriter.translate E writer document
  | inr msg => raise (SystemMessage msg)
  end.

(** What [check] returns: [False] or a list of booleans. *)
Inductive value : Type :=
| VBool (b : bool)
| VList (l : list bool).

(** The [settings_overrides] dictionary built by [check]. *)
Definition settings_overrides (strict_rst : bool) : gmap string Z :=
  if strict_rst then <[ "halt_level" := 1%Z ]> ∅ else ∅.

(** [check(filename, strict_rst, strict_warnings)] *)
Definition check (E : Platform) (filename : string)
    (strict_rst strict_warnings : bool) : Py World value :=
  let settings_overrides := settings_overrides strict_rst in
  contents <- open_read E filename ;;
  let writer := CheckWriter.init strict_warnings filename in
  r <- try_except
         (writer <- publish_string E contents writer filename
                                   settings_overrides ;;
          ret (Some writer))
         (λ e, match e with
               | SystemMessage _ => Some (ret None)
               | _ => None
               end) ;;
  match r with
  | None => ret (VBool false)
  | Some writer => ret (VList (CheckWriter.summary writer))
  end.

(** [summary += v] on a list: the right operand must be iterable. *)
Definition list_iadd (summary : list bool) (v : value)
  : Py World (list bool) :=
  match v with
  | VList l => ret (summary ++ l)
  | VBool _ => raise (TypeError "'bool' object is not iterable")
  end.

(** The command line after [argparse]. *)
Record Args : Type := {
  files : list string;
  strict_rst : bool;
  strict_warnings : bool
}.

(** The loop of [main] over [args.files]. *)
Fixpoint check_files (E : Platform) (args : Args) (fs : list string)
    (summary : list bool) : Py World (list bool) :=
  match fs with
  | [] => ret summary
  | filename :: fs' =>
      v <- check E filename (strict_rst args) (strict_warnings args) ;;
      summary <- list_iadd summary v ;;
      check_files E args fs' summary
  end.

(** [len([1 for value in summary if not value])] *)
Definition count_failures (summary : list bool) : nat :=
  length ((λ _, 1%Z) <$> List.filter (λ value, negb value) summary).

(** Lines printed one after the other on a stream. *)
Fixpoint print_all (stream : string → event) (lines : list string)
  : Py World unit :=
  match lines with
  | [] => ret tt
  | l :: lines' => emit (stream l) ;;; print_all stream lines'
  end.

(** [parser.parse_args()]: the namespace, or argparse's exit after its
    messages. *)
Definition parse_args (E : Platform) (argv : list string) : Py World Args :=
  match argparse E argv with
  | Namespace file files strict_rst strict_warnings =>
      ret {| files := file :: files; strict_rst := strict_rst;
             strict_warnings := strict_warnings |}
  | Exit status out err =>
      print_all Stdout out ;;;
      print_all Stderr err ;;;
      raise (SystemExit status)
  end.

(** [main()], on the command line [argv]. *)
Definition main (E : Platform) (argv : list string) : Py World Z :=
  args <- parse_args E argv ;;
  summary <- check_files E args (files args) [] ;;
  let failures := count_failures summary in
  inform E (pretty failures +:+ " failure(s)")
         (if (0 <? failures)%nat then RED else GREEN) ;;;
  ret (if (0 <? failures)%nat then 1%Z else 0%Z).

(** [sys.exit(main())]: the exit status of the process.  [SystemExit]
    ends the process with its status; any other exception that escapes
    [main] is reported by the interpreter, which exits with status 1. *)
Definition script (E : Platform) (argv : list string) (w : World)
  : Z * World :=
  match main E argv w with
  | (Returned status, w') => (status, w')
  | (Raised (SystemExit status), w') => (status, w')
  | (Raised e, w') => (1%Z, w' ++ [Traceback e])
  end.

(** ** Vocabulary of the statements *)

(** What goes wrong before the checker has run, for a command [args], an
    extension [ext] and a snippet [text], when [k] temporary files were
    created before: the exception and the events performed up to it. *)
Definition check_failure (E : Platform) (k : nat) (ext : string)
    (args : list string) (text : string) : option (exn * list event) :=
  match temp_name E k ext with
  | inr msg => Some (OSError msg, [])
  | inl name =>
      match temp_write E name text with
      | Some msg => Some (IOError msg, [TempCreate name])
      | None =>
          match popen E (args ++ [name]) text with
          | inr msg =>
              Some (OSError msg,
                    [TempCreate name; TempWrite name text; Stderr text;
                     Stderr (colored E "Okay" GREEN);
                     Spawn (args ++ [name])])
          | inl _ => None
          end
      end
  end.

(** The events of a check up to the launch of the process. *)
Definition launch_events (E : Platform) (name text : string)
    (args : list string) : list event :=
  [TempCreate name; TempWrite name text; Stderr text;
   Stderr (colored E "Okay" GREEN); Spawn (args ++ [name])].

(** White space at the ends of a text, as [strip] sees it. *)
Fixpoint blank (s : string) : bool :=
  match s with
  | EmptyString => true
  | String c s' => isspace c && blank s'
  end.

Definition starts_blank (s : string) : bool :=
  match s with
  | String c _ => isspace c
  | EmptyString => false
  end.

Fixpoint ends_blank (s : string) : bool :=
  match s with
  | EmptyString => false
  | String c EmptyString => isspace c
  | String _ s' => ends_blank s'
  end.

(** [d] is [s] without the white space at its two ends. *)
Definition stripped_of (s d : string) : Prop :=
  ∃ pre post,
    s = pre +:+ (d +:+ post)
    ∧ blank pre = true ∧ blank post = true
    ∧ starts_blank d = false ∧ ends_blank d = false.

(** The first stream that does not decode, standard output before
    standard error: the message of the [UnicodeDecodeError]. *)
Definition decode_failure (stdout stderr : bytes) : option string :=
  match stdout, stderr with
  | Undecodable msg, _ => Some msg
  | Decodes _, Undecodable msg => Some msg
  | Decodes _, Decodes _ => None
  end.

(** The nodes [visit_literal_block] checks: literal blocks bearing the
    [code-block] class. *)
Definition is_code_block (n : node) : bool :=
  bool_decide (tagname n = "literal_block")
  && node_has_class n (ClassName "code-block").

(** The code blocks the traversal reaches, in document order: it does not
    descend into a code block. *)
Fixpoint code_blocks (n : node) : list node :=
  if is_code_block n then [n]
  else (fix over (cs : list node) : list node :=
          match cs with
          | [] => []
          | c :: cs' => code_blocks c ++ over cs'
          end) (children n).

(** Every literal block bearing the class, wherever it is in the tree. *)
Fixpoint all_code_blocks (n : node) : list node :=
  (if is_code_block n then [n] else [])
  ++ (fix over (cs : list node) : list node :=
        match cs with
        | [] => []
        | c :: cs' => all_code_blocks c ++ over cs'
        end) (children n).

(** The docutils content model: a literal block holds text and inline
    elements, so no code block lies below a code block. *)
Fixpoint no_nested_block (n : node) : Prop :=
  (is_code_block n = true → all_code_blocks n = [n])
  ∧ (fix all (cs : list node) : Prop :=
       match cs with
       | [] => True
       | c :: cs' => no_nested_block c ∧ all cs'
       end) (children n).

(** The language tag of the node has an entry in the registry. *)
Definition known_language (strict_warnings : bool) (n : node) : bool :=
  bool_decide (is_Some (checkers_get (error_flag strict_warnings)
                                     (language n))).

(** The blocks for which the visitor appends a result to its summary. *)
Definition recorded (strict_warnings : bool) (n : node) : bool :=
  known_language strict_warnings n || strict_warnings.

(** The temporary-file facility and the checkers behave the same whatever
    name the temporary file gets. *)
Definition name_blind (E : Platform) : Prop :=
  (∀ k1 k2 suffix,
      match temp_name E k1 suffix, temp_name E k2 suffix with
      | inl _, inl _ => True
      | inr m1, inr m2 => m1 = m2
      | _, _ => False
      end)
  ∧ (∀ name1 name2 text, temp_write E name1 text = temp_write E name2 text)
  ∧ (∀ a args name1 name2 text,
        popen E (a :: args ++ [name1]) text
        = popen E (a :: args ++ [name2]) text).

(** Two runs of a visitor computation from the same visitor object and
    different worlds end alike: same result, same visitor object. *)
Definition alike {A} (c : Py CheckTranslator.State A) : Prop :=
  ∀ v w1 w2, ∃ r v' w1' w2',
    c (v, w1) = (r, (v', w1')) ∧ c (v, w2) = (r, (v', w2')).

(** What the check of one code block adds to the summary when [k]
    temporary files were created before, with the number of temporary
    files after it; [None] when the check does not complete: the
    temporary file cannot be created or written, the checker cannot be
    launched, or its output does not decode. *)
Definition block_outcome (E : Platform) (strict : bool) (k : nat)
    (n : node) : option (list bool * nat) :=
  match checkers_get (error_flag strict) (language n) with
  | None => Some (if strict then [false] else [], k)
  | Some (ext, args) =>
      match temp_name E k ext with
      | inr _ => None
      | inl name =>
          match temp_write E name (rawsource n) with
          | Some _ => None
          | None =>
              match popen E (args ++ [name]) (rawsource n) with
              | inl (rc, Decodes _, Decodes _) =>
                  Some ([(rc =? 0)%Z], S k)
              | _ => None
              end
          end
      end
  end.

(** The same for code blocks checked one after the other. *)
Fixpoint blocks_outcomes (E : Platform) (strict : bool) (k : nat)
    (blocks : list node) : option (list bool * nat) :=
  match blocks with
  | [] => Some ([], k)
  | n :: rest =>
      match block_outcome E strict k n with
      | None => None
      | Some (r, k1) =>
          match blocks_outcomes E strict k1 rest with
          | None => None
          | Some (rs, k2) => Some (r ++ rs, k2)
          end
      end
  end.

(** The summary of a document: the results of its code blocks in document
    order. *)
Definition document_outcomes (E : Platform) (strict : bool) (k : nat)
    (document : node) : option (list bool) :=
  fst <$> blocks_outcomes E strict k (code_blocks document).

(** The summary of a run over the files [fs]: every file is read and
    parsed and the checks of its code blocks complete. *)
Fixpoint files_outcomes (E : Platform) (strict_rst strict_warnings : bool)
    (k : nat) (fs : list string) : option (list bool) :=
  match fs with
  | [] => Some []
  | f :: fs' =>
      match read_file E f with
      | inl (Decodes contents) =>
          match parse E f contents (settings_overrides strict_rst) with
          | (_, inl document) =>
              match blocks_outcomes E strict_warnings k
                                    (code_blocks document) with
              | Some (r, k') =>
                  match files_outcomes E strict_rst strict_warnings k' fs'
                  with
                  | Some rs => Some (r ++ rs)
                  | None => None
                  end
              | None => None
              end
          | (_, inr _) => None
          end
      | _ => None
      end
  end.

(** The visitor object and the events of a completed traversal over the
    code blocks [blocks] that added [results] to the summary: same
    settings, and one temporary file and one process for each block with
    a registered language. *)
Definition traversed (blocks : list node) (results : list bool)
    (v v' : CheckTranslator.t) (evs : list event) : Prop :=
  let strict := CheckTranslator.strict_warnings v in
  CheckTranslator.strict_warnings v' = strict
  ∧ CheckTranslator.filename v' = CheckTranslator.filename v
  ∧ CheckTranslator.summary v' = CheckTranslator.summary v ++ results
  ∧ length (spawned_of evs)
    = length (List.filter (known_language strict) blocks)
  ∧ temp_count evs
    = length (List.filter (known_language strict) blocks).

(** [argv] is a command of the registry followed by the file name
    [name]. *)
Definition registry_command (strict : bool) (argv : list string)
    (name : string) : Prop :=
  ∃ tag ext args,
    checkers (error_flag strict) !! tag = Some (ext, args)
    ∧ argv = args ++ [name].

(** The events a traversal may perform, scanned in order with the names
    of the temporary files [written] so far: text on standard error,
    temporary files, and registry commands on a file written before; no
    file is opened and no exception reported. *)
Fixpoint checked_trace (strict : bool) (written : list string)
    (evs : list event) : Prop :=
  match evs with
  | [] => True
  | TempWrite name _ :: evs' => checked_trace strict (name :: written) evs'
  | Spawn argv :: evs' =>
      (∃ name, registry_command strict argv name ∧ name ∈ written)
      ∧ checked_trace strict written evs'
  | Open _ :: _ => False
  | Traceback _ :: _ => False
  | _ :: evs' => checked_trace strict written evs'
  end.

(** How a traversal can end: it returns without the stop flag, or the
    temporary-file facility, the launch of a checker or the decoding of
    its output raised. *)
Definition walk_result (r : outcome bool) : Prop :=
  match r with
  | Returned stop => stop = false
  | Raised (OSError _) => True
  | Raised (IOError _) => True
  | Raised (UnicodeDecodeError _) => True
  | Raised _ => False
  end.

(** The visitor object and the events of a traversal or of a part of it:
    same settings, a summary that extends the previous one, and a checked
    trace. *)
Definition framed (v v' : CheckTranslator.t) (evs : list event) : Prop :=
  CheckTranslator.strict_warnings v' = CheckTranslator.strict_warnings v
  ∧ CheckTranslator.filename v' = CheckTranslator.filename v
  ∧ (∃ results,
        CheckTranslator.summary v' = CheckTranslator.summary v ++ results)
  ∧ checked_trace (CheckTranslator.strict_warnings v) [] evs.

(** ** A sample platform

    Standard error is not a terminal.  [good.rst] holds a valid C block, a
    C++ block with a missing semicolon and a block tagged [ruby];
    [python.rst] holds a Python block followed by a C block, and no
    [python] program is installed; [bad.rst] is rejected by the parser at
    the strict halt level; [latin1.rst] holds bytes that are not UTF-8. *)

Definition c_block : node :=
  Node "literal_block" ["code-block"] (Some "c")
       "int main(void) { return 0; }" (Some 4%Z)
       [Text "int main(void) { return 0; }"].

Definition cpp_block : node :=
  Node "literal_block" ["code-block"] (Some "cpp")
       "int f() { return 0 }" (Some 9%Z) [Text "int f() { return 0 }"].

Definition ruby_block : node :=
  Node "literal_block" ["code-block"] (Some "ruby")
       "puts 1" (Some 14%Z) [Text "puts 1"].

Definition python_block : node :=
  Node "literal_block" ["code-block"] (Some "python")
       "print(1)" (Some 3%Z) [Text "print(1)"].

Definition plain_literal : node :=
  Node "literal_block" [] None "plain" (Some 17%Z) [Text "plain"].

Definition document (body : list node) : node :=
  Node "document" [] None EmptyString None body.

Definition good_doc : node :=
  document [ Node "paragraph" [] None "Intro" (Some 1%Z) [Text "Intro"];
             c_block;
             Node "section" [] None EmptyString (Some 7%Z)
                  [cpp_block; ruby_block];
             plain_literal ].

Definition python_doc : node := document [python_block; c_block].

(** The checker processes: [g++] rejects the snippet, the others accept. *)
Definition run_checker (argv : list string) (text : string)
  : Z * bytes * bytes :=
  match argv with
  | "g++" :: _ =>
      (1%Z, Decodes EmptyString,
       Decodes ("error: expected ';' before '}' token" +:+ NL))
  | _ => (0%Z, Decodes EmptyString, Decodes EmptyString)
  end.

Definition usage : string :=
  "usage: rstcheck [-h] [--strict-rst] [--strict-warnings] files [files ...]".

Definition is_option (a : string) : bool :=
  match a with
  | String c _ => bool_decide (c = Ascii.ascii_of_nat 45)
  | EmptyString => false
  end.

(** A command-line parser for the sample platforms: options, one or more
    files, options; [closed] once an option follows a file. *)
Fixpoint scan_args (argv files : list string) (closed : bool)
    (strict_rst strict_warnings : bool) : command_line :=
  match argv with
  | [] =>
      match files with
      | f :: fs => Namespace f fs strict_rst strict_warnings
      | [] =>
          Exit 2 [] [usage; "rstcheck: error: the following arguments "
                            +:+ "are required: files"]
      end
  | a :: rest =>
      let after := closed || negb (bool_decide (files = [])) in
      if decide (a = "--strict-rst")
      then scan_args rest files after true strict_warnings
      else if decide (a = "--strict-warnings")
      then scan_args rest files after strict_rst true
      else if decide (a = "-h" ∨ a = "--help")
      then Exit 0 [usage] []
      else if is_option a || closed
      then Exit 2 [] [usage; "rstcheck: error: unrecognized arguments: "
                             +:+ a]
      else scan_args rest (files ++ [a]) false strict_rst strict_warnings
  end.

Definition sample : Platform := {|
  argparse := λ argv, scan_args argv [] false false false;
  isatty := false;
  read_file := λ f,
    if decide (f = "good.rst") then inl (Decodes "good")
    else if decide (f = "python.rst") then inl (Decodes "python")
    else if decide (f = "bad.rst") then inl (Decodes "bad")
    else if decide (f = "latin1.rst")
    then inl (Undecodable "'utf-8' codec can't decode byte 0xe9")
    else inr "No such file or directory";
  parse := λ path contents overrides,
    if decide (contents = "good") then ([], inl good_doc)
    else if decide (contents = "python") then ([], inl python_doc)
    else match overrides !! "halt_level" with
         | Some 1%Z =>
             ([path +:+ ":1: (INFO/1) Unexpected indentation."],
              inr "Unexpected indentation.")
         | _ => ([], inl (document []))
         end;
  temp_name := λ k suffix, inl ("/tmp/tmp" +:+ pretty k +:+ suffix);
  temp_write := λ _ _, None;
  popen := λ argv text,
    match argv with
    | "python" :: _ => inr "[Errno 2] No such file or directory"
    | _ => inl (run_checker argv text)
    end
|}.

(** The same platform, on which the C compiler prints a diagnostic that
    is not UTF-8. *)
Definition garbled : Platform := {|
  argparse := argparse sample;
  isatty := isatty sample;
  read_file := read_file sample;
  parse := parse sample;
  temp_name := temp_name sample;
  temp_write := temp_write sample;
  popen := λ argv text,
    match argv with
    | "gcc" :: _ =>
        inl (1%Z, Decodes EmptyString,
             Undecodable "'utf-8' codec can't decode byte 0xe9")
    | _ => popen sample argv text
    end
|}.

(** A document with a paragraph and a plain literal block, and a platform
    on which every file parses to it, with a note from the reporter. *)
Definition plain_doc : node :=
  document [ Node "paragraph" [] None "Intro" (Some 1%Z) [Text "Intro"];
             plain_literal ].

Definition plain_platform : Platform := {|
  argparse := argparse sample;
  isatty := true;
  read_file := λ _, inl (Decodes "plain");
  parse := λ path _ _,
    ([path +:+ ":3: (INFO/1) Possible title underline."], inl plain_doc);
  temp_name := temp_name sample;
  temp_write := temp_write sample;
  popen := popen sample
|}.

(** A platform on which every checker is installed and accepts every
    snippet. *)
Definition accepting : Platform := {|
  argparse := argparse sample;
  isatty := isatty sample;
  read_file := read_file sample;
  parse := parse sample;
  temp_name := temp_name sample;
  temp_write := temp_write sample;
  popen := λ _ _, inl (0%Z, Decodes EmptyString, Decodes EmptyString)
|}.

(** * Properties *)

(** ** Induction over document trees *)

Section NodeInd.

Context (P : node → Prop).
Hypothesis step : ∀ tag cls lang raw ln cs,
    Forall P cs → P (Node tag cls lang raw ln cs).

Fixpoint node_ind (n : node) : P n :=
  match n with
  | Node tag cls lang raw ln cs =>
      step tag cls lang raw ln cs
           ((fix all (l : list node) : Forall P l :=
               match l with
               | [] => Forall_nil_2 P
               | c :: l' => Forall_cons_2 P c l' (node_ind c) (all l')
               end) cs)
  end.

End NodeInd.

(** ** The registry *)

Lemma checkers_is_Some ef tag :
  is_Some (checkers ef !! tag)
  ↔ tag = "bash" ∨ tag = "c" ∨ tag = "cpp" ∨ tag = "python".
Proof.
  unfold checkers. rewrite !lookup_insert.
  repeat case_decide; subst; rewrite ?lookup_empty; split;
    intros Hx; eauto; try (by destruct Hx as [? ?]).
  destruct Hx as [|[|[|]]]; congruence.
Qed.

Lemma checkers_get_None ef : checkers_get ef None = None.
Proof. reflexivity. Qed.

Lemma checkers_get_empty ef : checkers_get ef (Some EmptyString) = None.
Proof. reflexivity. Qed.

(** ** One visit of [visit_literal_block] *)

Ltac py_unfold :=
  unfold CheckTranslator.world, CheckTranslator.self,
    CheckTranslator.summary_append, inform, print_stderr,
    NamedTemporaryFile, write_flush, Popen, open_read, decode,
    emit, try_except, bind, ret, raise, get, modify.

Ltac py_simpl := cbn -[strip join colored temp_count checkers_get pretty].

Section Visit.

Import CheckTranslator.
Context (E : Platform).

Lemma visit_other (n : node) (s : State) :
  node_has_class n (ClassName "code-block") = false →
  visit_literal_block E n s = (Returned tt, s).
Proof. intros H. unfold visit_literal_block. by rewrite H. Qed.

(** A block whose language the registry knows, when the snippet is
    written, the checker launched and its output decoded. *)
Lemma visit_known (n : node) (v : t) (w : World) ext args name rc out err :
  node_has_class n (ClassName "code-block") = true →
  checkers_get (error_flag (strict_warnings v)) (language n)
    = Some (ext, args) →
  temp_name E (temp_count w) ext = inl name →
  temp_write E name (rawsource n) = None →
  popen E (args ++ [name]) (rawsource n)
    = inl (rc, Decodes out, Decodes err) →
  visit_literal_block E n (v, w)
  = (Raised SkipNode,
     (appended v (rc =? 0)%Z,
      w ++ [TempCreate name; TempWrite name (rawsource n);
            Stderr (rawsource n); Stderr (colored E "Okay" GREEN);
            Spawn (args ++ [name])]
        ++ (if (rc =? 0)%Z then []
            else [Stderr (colored E
                            (filename v +:+ ":" +:+ format_int (line n)
                             +:+ ": " +:+ strip (join NL [out; err]))
                            RED)]))).
Proof.
  intros Hc Hr Ht Hw Hp. unfold visit_literal_block.
  rewrite Hc. py_simpl. py_unfold. py_simpl.
  rewrite Hr. py_simpl. rewrite Ht. py_simpl. rewrite Hw. py_simpl.
  rewrite <- !app_assoc. py_simpl. rewrite Hp. py_simpl.
  destruct (rc =? 0)%Z; py_simpl; rewrite <- ?app_assoc; reflexivity.
Qed.

(** A block whose checker ran and wrote bytes that do not decode: the
    visit raises after the process, and nothing is recorded. *)
Lemma visit_undecodable (n : node) (v : t) (w : World) ext args name rc
    stdout stderr msg :
  node_has_class n (ClassName "code-block") = true →
  checkers_get (error_flag (strict_warnings v)) (language n)
    = Some (ext, args) →
  temp_name E (temp_count w) ext = inl name →
  temp_write E name (rawsource n) = None →
  popen E (args ++ [name]) (rawsource n) = inl (rc, stdout, stderr) →
  decode_failure stdout stderr = Some msg →
  visit_literal_block E n (v, w)
  = (Raised (UnicodeDecodeError msg),
     (v, w ++ [TempCreate name; TempWrite name (rawsource n);
               Stderr (rawsource n); Stderr (colored E "Okay" GREEN);
               Spawn (args ++ [name])])).
Proof.
  intros Hc Hr Ht Hw Hp Hd. unfold visit_literal_block.
  rewrite Hc. py_simpl. py_unfold. py_simpl.
  rewrite Hr. py_simpl. rewrite Ht. py_simpl. rewrite Hw. py_simpl.
  rewrite <- !app_assoc. py_simpl. rewrite Hp. py_simpl.
  destruct stdout as [out|m1], stderr as [err|m2];
    simpl in Hd; simplify_eq; reflexivity.
Qed.

(** A block whose language the registry does not know. *)
Lemma visit_unknown (n : node) (v : t) (w : World) :
  node_has_class n (ClassName "code-block") = true →
  checkers_get (error_flag (strict_warnings v)) (language n) = None →
  visit_literal_block E n (v, w)
  = (Raised SkipNode,
     (if strict_warnings v then appended v false else v,
      w ++ [Stderr (colored E ("Unknown language: "
                               +:+ format_str (language n)) RED)])).
Proof.
  intros Hc Hr. unfold visit_literal_block.
  rewrite Hc. py_simpl. py_unfold. py_simpl. rewrite Hr. py_simpl.
  destruct (strict_warnings v); reflexivity.
Qed.

End Visit.

Section VisitFailure.

Import CheckTranslator.
Context (E : Platform).

Lemma check_failure_not_skip k ext args text e evs :
  check_failure E k ext args text = Some (e, evs) → e ≠ SkipNode.
Proof.
  unfold check_failure. intros H.
  repeat case_match; simplify_eq; discriminate.
Qed.

(** The visit of a block whose snippet cannot be written or whose checker
    cannot be launched raises, and the visitor object is unchanged. *)
Lemma visit_failure (n : node) (v : t) (w : World) ext args e evs :
  node_has_class n (ClassName "code-block") = true →
  checkers_get (error_flag (strict_warnings v)) (language n)
    = Some (ext, args) →
  check_failure E (temp_count w) ext args (rawsource n) = Some (e, evs) →
  visit_literal_block E n (v, w) = (Raised e, (v, w ++ evs)).
Proof.
  intros Hc Hr Hf. unfold visit_literal_block, check_failure in *.
  rewrite Hc. py_simpl. py_unfold. py_simpl. rewrite Hr. py_simpl.
  destruct (temp_name E (temp_count w) ext) as [name|msg]; py_simpl.
  - destruct (temp_write E name (rawsource n)); py_simpl.
    + simplify_eq. reflexivity.
    + rewrite <- !app_assoc. py_simpl.
      destruct (popen E (args ++ [name]) (rawsource n)); simplify_eq.
      reflexivity.
  - simplify_eq. by rewrite app_nil_r.
Qed.

End VisitFailure.

(** ** The traversal *)

Section Walk.

Import CheckTranslator.
Context (E : Platform).

Lemma walkabout_eq (n : node) (s : State) :
  walkabout E n s
  = match dispatch_visit E n s with
    | (Raised SkipNode, s1) => (Returned false, s1)
    | (Raised e, s1) => (Raised e, s1)
    | (Returned _, s1) =>
        match walk_children E (children n) s1 with
        | (Returned stop, s2) => (Returned stop, s2)
        | (Raised e, s2) => (Raised e, s2)
        end
    end.
Proof.
  destruct n as [tag cls lang raw ln cs]. simpl.
  destruct (dispatch_visit E _ s) as [[[]|e] s1]; [|reflexivity].
  generalize s1. induction cs as [|c cs IH]; intros s0; [reflexivity|].
  simpl in *. destruct (walkabout E c s0) as [[[|]|e] s']; auto.
Qed.

(** A node that is not a [code-block] literal block is passed over and
    its children are walked. *)
Lemma walkabout_descend (n : node) (s : State) :
  tagname n ≠ "literal_block"
  ∨ node_has_class n (ClassName "code-block") = false →
  walkabout E n s = walk_children E (children n) s.
Proof.
  intros H. rewrite walkabout_eq. unfold dispatch_visit.
  assert (Hv : (if decide (tagname n = "literal_block")
                then visit_literal_block E n else unknown_visit n) s
               = (Returned tt, s)).
  { case_decide; [|reflexivity]. destruct H as [H|H]; [done|].
    by apply visit_other. }
  rewrite Hv. by destruct (walk_children E (children n) s) as [[b|e] s'].
Qed.

(** A [code-block] literal block is handed to [visit_literal_block], and
    its [SkipNode] ends the processing of the node. *)
Lemma walkabout_code_block (n : node) (s : State) :
  tagname n = "literal_block" →
  walkabout E n s
  = match visit_literal_block E n s with
    | (Raised SkipNode, s1) => (Returned false, s1)
    | (Raised e, s1) => (Raised e, s1)
    | (Returned _, s1) =>
        match walk_children E (children n) s1 with
        | (Returned stop, s2) => (Returned stop, s2)
        | (Raised e, s2) => (Raised e, s2)
        end
    end.
Proof.
  intros H. rewrite walkabout_eq. unfold dispatch_visit.
  by rewrite decide_True.
Qed.

End Walk.

(** ** Counting the recorded results *)

Lemma code_blocks_eq (n : node) :
  code_blocks n
  = if is_code_block n then [n] else flat_map code_blocks (children n).
Proof.
  destruct n as [tag cls lang raw ln cs]. simpl.
  destruct (is_code_block _); [reflexivity|].
  induction cs as [|c cs IH]; simpl; [reflexivity|]. by rewrite IH.
Qed.

Lemma is_code_block_true (n : node) :
  is_code_block n = true
  ↔ tagname n = "literal_block"
    ∧ node_has_class n (ClassName "code-block") = true.
Proof.
  unfold is_code_block. rewrite andb_true_iff, bool_decide_eq_true. tauto.
Qed.

Lemma is_code_block_false (n : node) :
  is_code_block n = false
  ↔ tagname n ≠ "literal_block"
    ∨ node_has_class n (ClassName "code-block") = false.
Proof.
  unfold is_code_block. rewrite andb_false_iff, bool_decide_eq_false. tauto.
Qed.

Lemma all_code_blocks_eq (n : node) :
  all_code_blocks n
  = (if is_code_block n then [n] else [])
    ++ flat_map all_code_blocks (children n).
Proof.
  destruct n as [tag cls lang raw ln cs].
  assert (Hcs : (fix over (cs : list node) : list node :=
                   match cs with
                   | [] => []
                   | c :: cs' => all_code_blocks c ++ over cs'
                   end) cs = flat_map all_code_blocks cs).
  { induction cs as [|c cs IH]; simpl; [reflexivity|]. by rewrite IH. }
  simpl. by rewrite Hcs.
Qed.

Lemma no_nested_block_eq (n : node) :
  no_nested_block n
  ↔ (is_code_block n = true → all_code_blocks n = [n])
    ∧ Forall no_nested_block (children n).
Proof.
  destruct n as [tag cls lang raw ln cs].
  change (no_nested_block (Node tag cls lang raw ln cs))
    with ((is_code_block (Node tag cls lang raw ln cs) = true
           → all_code_blocks (Node tag cls lang raw ln cs)
             = [Node tag cls lang raw ln cs])
          ∧ (fix all (cs : list node) : Prop :=
               match cs with
               | [] => True
               | c :: cs' => no_nested_block c ∧ all cs'
               end) cs).
  cbn [children].
  assert (Hall : (fix all (cs : list node) : Prop :=
                    match cs with
                    | [] => True
                    | c :: cs' => no_nested_block c ∧ all cs'
                    end) cs ↔ Forall no_nested_block cs).
  { induction cs as [|c cs IH]; [by split|].
    rewrite Forall_cons. tauto. }
  tauto.
Qed.

(** In a tree that follows the docutils content model the traversal
    reaches every code block. *)
Lemma code_blocks_all (n : node) :
  no_nested_block n → code_blocks n = all_code_blocks n.
Proof.
  induction n as [tag cls lang raw ln cs IH] using node_ind.
  set (n := Node tag cls lang raw ln cs).
  rewrite no_nested_block_eq. intros [Hself Hcs].
  rewrite code_blocks_eq. destruct (is_code_block n) eqn:Hb.
  - by rewrite Hself.
  - rewrite all_code_blocks_eq, Hb. simpl. clear Hself Hb.
    induction IH as [|c cs Hc _ IHcs]; [done|]. simpl.
    apply Forall_cons in Hcs as [Hc1 Hcs]. by rewrite Hc, IHcs.
Qed.

(** ** Traces *)

Lemma stderr_of_app (w1 w2 : World) :
  stderr_of (w1 ++ w2) = stderr_of w1 ++ stderr_of w2.
Proof. apply omap_app. Qed.

Lemma spawned_of_app (w1 w2 : World) :
  spawned_of (w1 ++ w2) = spawned_of w1 ++ spawned_of w2.
Proof. apply omap_app. Qed.

Lemma opened_of_app (w1 w2 : World) :
  opened_of (w1 ++ w2) = opened_of w1 ++ opened_of w2.
Proof. apply omap_app. Qed.

Lemma temp_count_app (w1 w2 : World) :
  temp_count (w1 ++ w2) = (temp_count w1 + temp_count w2)%nat.
Proof. unfold temp_count. by rewrite omap_app, length_app. Qed.

Lemma opened_of_report (msgs : list string) :
  opened_of (Stderr <$> msgs) = [].
Proof. induction msgs as [|m msgs IH]; [done|]. simpl. apply IH. Qed.

Lemma spawned_of_report (msgs : list string) :
  spawned_of (Stderr <$> msgs) = [].
Proof. induction msgs as [|m msgs IH]; [done|]. simpl. apply IH. Qed.

Lemma temp_count_report (msgs : list string) :
  temp_count (Stderr <$> msgs) = 0%nat.
Proof.
  unfold temp_count. induction msgs as [|m msgs IH]; [done|]. apply IH.
Qed.

Lemma eqb_zero_decide (rc : Z) : (rc =? 0)%Z = bool_decide (rc = 0%Z).
Proof.
  destruct (Z.eqb_spec rc 0).
  - by rewrite bool_decide_eq_true_2.
  - by rewrite bool_decide_eq_false_2.
Qed.

(** Rewrite with an equation [f s = rhs] whose left-hand side occurs in
    the goal up to conversion of the state. *)
Ltac rewrite_run H :=
  match type of H with
  | ?f ?s = ?rhs =>
      match goal with
      | |- context [f ?s'] =>
          replace (f s') with rhs by (symmetry; exact H)
      end
  end.

(** ** The visit of a code block, case by case *)

Lemma check_failure_None E k ext args text :
  check_failure E k ext args text = None →
  ∃ name rc stdout stderr,
    temp_name E k ext = inl name
    ∧ temp_write E name text = None
    ∧ popen E (args ++ [name]) text = inl (rc, stdout, stderr).
Proof.
  unfold check_failure. intros H.
  destruct (temp_name E k ext) as [name|]; [|done].
  destruct (temp_write E name text) eqn:Hw; [done|].
  destruct (popen E (args ++ [name]) text) as [[[rc so] se]|] eqn:Hp;
    [|done].
  by exists name, rc, so, se.
Qed.

Lemma decode_failure_None stdout stderr :
  decode_failure stdout stderr = None →
  ∃ out err, stdout = Decodes out ∧ stderr = Decodes err.
Proof. destruct stdout, stderr; simpl; intros; simplify_eq; eauto. Qed.

(** A code block with a registered language: the check fails before the
    process has run, or the output of the process does not decode, or
    the check completes. *)
Lemma visit_registered (E : Platform) (n : node) (v : CheckTranslator.t)
    (w : World) ext args :
  node_has_class n (ClassName "code-block") = true →
  checkers_get (error_flag (CheckTranslator.strict_warnings v)) (language n)
    = Some (ext, args) →
  (∃ e evs,
      check_failure E (temp_count w) ext args (rawsource n) = Some (e, evs)
      ∧ CheckTranslator.visit_literal_block E n (v, w)
        = (Raised e, (v, w ++ evs)))
  ∨ (∃ name rc stdout stderr msg,
        temp_name E (temp_count w) ext = inl name
        ∧ temp_write E name (rawsource n) = None
        ∧ popen E (args ++ [name]) (rawsource n) = inl (rc, stdout, stderr)
        ∧ decode_failure stdout stderr = Some msg
        ∧ CheckTranslator.visit_literal_block E n (v, w)
          = (Raised (UnicodeDecodeError msg),
             (v, w ++ launch_events E name (rawsource n) args)))
  ∨ (∃ name rc out err,
        temp_name E (temp_count w) ext = inl name
        ∧ temp_write E name (rawsource n) = None
        ∧ popen E (args ++ [name]) (rawsource n)
          = inl (rc, Decodes out, Decodes err)
        ∧ CheckTranslator.visit_literal_block E n (v, w)
          = (Raised SkipNode,
             (CheckTranslator.appended v (rc =? 0)%Z,
              w ++ launch_events E name (rawsource n) args
                ++ (if (rc =? 0)%Z then []
                    else [Stderr
                            (colored E
                               (CheckTranslator.filename v +:+ ":"
                                +:+ format_int (line n) +:+ ": "
                                +:+ strip (join NL [out; err]))
                               RED)])))).
Proof.
  intros Hc Hr.
  destruct (check_failure E (temp_count w) ext args (rawsource n))
    as [[e evs]|] eqn:Hf.
  { left. exists e, evs. split; [done|]. by eapply visit_failure. }
  destruct (check_failure_None _ _ _ _ _ Hf)
    as (name & rc & so & se & Ht & Hw & Hp).
  destruct (decode_failure so se) as [msg|] eqn:Hd.
  - right. left. exists name, rc, so, se, msg.
    repeat (split; [done|]). by eapply visit_undecodable.
  - right. right.
    destruct (decode_failure_None _ _ Hd) as (out & err & -> & ->).
    exists name, rc, out, err. repeat (split; [done|]).
    by eapply visit_known.
Qed.

(** ** The summary of a traversal *)

Lemma blocks_outcomes_app E strict k l1 l2 :
  blocks_outcomes E strict k (l1 ++ l2)
  = match blocks_outcomes E strict k l1 with
    | None => None
    | Some (r1, k1) =>
        match blocks_outcomes E strict k1 l2 with
        | None => None
        | Some (r2, k2) => Some (r1 ++ r2, k2)
        end
    end.
Proof.
  revert k. induction l1 as [|n l1 IH]; intros k; simpl.
  - by destruct (blocks_outcomes E strict k l2) as [[r2 k2]|].
  - destruct (block_outcome E strict k n) as [[r k1]|]; [|done].
    rewrite IH. destruct (blocks_outcomes E strict k1 l1) as [[r1 k2]|];
      [|done].
    destruct (blocks_outcomes E strict k2 l2) as [[r2 k3]|]; [|done].
    by rewrite app_assoc.
Qed.

Lemma known_recorded strict n :
  known_language strict n = true → recorded strict n = true.
Proof. unfold recorded. by intros ->. Qed.

Lemma known_language_Some strict n ext args :
  checkers_get (error_flag strict) (language n) = Some (ext, args) →
  known_language strict n = true.
Proof.
  intros Hr. unfold known_language. rewrite Hr.
  by rewrite bool_decide_eq_true_2 by eauto.
Qed.

Lemma known_language_None strict n :
  checkers_get (error_flag strict) (language n) = None →
  known_language strict n = false ∧ recorded strict n = strict.
Proof.
  intros Hr. unfold recorded, known_language. rewrite Hr.
  by rewrite bool_decide_eq_false_2 by (by intros [? ?]).
Qed.

Lemma blocks_outcomes_length E strict k blocks results k' :
  blocks_outcomes E strict k blocks = Some (results, k') →
  length results = length (List.filter (recorded strict) blocks)
  ∧ k' = (k + length (List.filter (known_language strict) blocks))%nat.
Proof.
  revert k results k'.
  induction blocks as [|n blocks IH]; intros k results k'; simpl.
  - intros [= <- <-]. split; [done|lia].
  - destruct (block_outcome E strict k n) as [[r k1]|] eqn:Hb; [|done].
    destruct (blocks_outcomes E strict k1 blocks) as [[rs k2]|] eqn:Hbs;
      [|done].
    intros [= <- <-]. destruct (IH _ _ _ Hbs) as [Hl Hk].
    unfold block_outcome in Hb.
    destruct (checkers_get (error_flag strict) (language n))
      as [[ext args]|] eqn:Hr.
    + rewrite (known_language_Some _ _ _ _ Hr).
      rewrite (known_recorded _ _ (known_language_Some _ _ _ _ Hr)).
      repeat case_match; simplify_eq. rewrite length_app. simpl.
      split; lia.
    + destruct (known_language_None _ _ Hr) as [-> ->].
      simplify_eq. rewrite length_app.
      destruct strict; simpl; split; lia.
Qed.

Lemma traversed_nil v : traversed [] [] v v [].
Proof. repeat split. by rewrite app_nil_r. Qed.

Lemma traversed_app l1 l2 r1 r2 v1 v2 v3 evs1 evs2 :
  traversed l1 r1 v1 v2 evs1 →
  traversed l2 r2 v2 v3 evs2 →
  traversed (l1 ++ l2) (r1 ++ r2) v1 v3 (evs1 ++ evs2).
Proof.
  unfold traversed.
  intros (Hs1 & Hf1 & Hr1 & Hp1 & Ht1) (Hs2 & Hf2 & Hr2 & Hp2 & Ht2).
  rewrite Hs1 in *. rewrite !List.filter_app.
  split; [done|]. split; [congruence|]. split; [|split].
  - by rewrite Hr2, Hr1, app_assoc.
  - rewrite spawned_of_app, !length_app. lia.
  - rewrite temp_count_app, length_app. lia.
Qed.

(** The visit of a code block against [block_outcome]. *)
Lemma visit_code_block_outcome (E : Platform) (n : node)
    (v : CheckTranslator.t) (w : World) :
  is_code_block n = true →
  match block_outcome E (CheckTranslator.strict_warnings v)
                      (temp_count w) n with
  | Some (r, k') =>
      ∃ v' evs,
        CheckTranslator.visit_literal_block E n (v, w)
        = (Raised SkipNode, (v', w ++ evs))
        ∧ traversed [n] r v v' evs
        ∧ k' = temp_count (w ++ evs)
  | None =>
      ∃ e s', e ≠ SkipNode
              ∧ CheckTranslator.visit_literal_block E n (v, w)
                = (Raised e, s')
  end.
Proof.
  intros [Ht Hc]%is_code_block_true. unfold block_outcome.
  destruct (checkers_get (error_flag (CheckTranslator.strict_warnings v))
                         (language n)) as [[ext args]|] eqn:Hr.
  - pose proof (known_language_Some _ _ _ _ Hr) as Hk.
    destruct (visit_registered E n v w ext args Hc Hr)
      as [(e & evs & Hf & Hv)
         |[(name & rc & so & se & msg & Hn & Hw & Hp & Hd & Hv)
          |(name & rc & out & err & Hn & Hw & Hp & Hv)]].
    + pose proof (check_failure_not_skip E _ _ _ _ _ _ Hf) as Hne.
      assert (Hnone : match temp_name E (temp_count w) ext with
                      | inl name =>
                          match temp_write E name (rawsource n) with
                          | Some _ => None
                          | None =>
                              match popen E (args ++ [name]) (rawsource n)
                              with
                              | inl (rc, Decodes _, Decodes _) =>
                                  Some ([(rc =? 0)%Z], S (temp_count w))
                              | _ => None
                              end
                          end
                      | inr _ => None
                      end = None).
      { unfold check_failure in Hf. repeat case_match; simplify_eq; done. }
      rewrite Hnone. by exists e, (v, w ++ evs).
    + rewrite Hn, Hw, Hp.
      destruct so, se; simpl in Hd; simplify_eq;
        (eexists _, _; split; [|exact Hv]; done).
    + rewrite Hn, Hw, Hp. eexists _, _. split; [exact Hv|].
      unfold traversed. cbn [List.filter]. rewrite Hk.
      rewrite !spawned_of_app, !temp_count_app.
      unfold launch_events, temp_count.
      destruct (rc =? 0)%Z; simpl; repeat split; lia.
  - destruct (known_language_None _ _ Hr) as [Hk Hrec].
    eexists _, _. split; [by apply visit_unknown|].
    unfold traversed. cbn [List.filter]. rewrite Hk.
    rewrite temp_count_app.
    destruct (CheckTranslator.strict_warnings v) eqn:Hs; simpl;
      rewrite ?Hs, ?app_nil_r; repeat split; unfold temp_count; simpl;
      lia.
Qed.

(** The traversal against [blocks_outcomes]: it returns exactly when the
    checks of the code blocks it reaches complete, and then the summary
    grows by their results, in order. *)
Lemma walkabout_outcomes (E : Platform) (n : node) :
  ∀ v w,
    match blocks_outcomes E (CheckTranslator.strict_warnings v)
                          (temp_count w) (code_blocks n) with
    | Some (r, k') =>
        ∃ v' evs,
          CheckTranslator.walkabout E n (v, w)
          = (Returned false, (v', w ++ evs))
          ∧ traversed (code_blocks n) r v v' evs
          ∧ k' = temp_count (w ++ evs)
    | None =>
        ∃ e s', CheckTranslator.walkabout E n (v, w) = (Raised e, s')
    end.
Proof.
  induction n as [tag cls lang raw ln cs IH] using node_ind.
  intros v w. set (n := Node tag cls lang raw ln cs).
  rewrite code_blocks_eq. destruct (is_code_block n) eqn:Hb.
  - pose proof (visit_code_block_outcome E n v w Hb) as Hv.
    rewrite walkabout_code_block
      by apply (proj1 (is_code_block_true n) Hb).
    cbn [blocks_outcomes].
    destruct (block_outcome E _ (temp_count w) n) as [[r k1]|].
    + destruct Hv as (v' & evs & -> & Htr & ->).
      rewrite app_nil_r. by exists v', evs.
    + destruct Hv as (e & s' & Hne & ->). exists e, s'. by destruct e.
  - apply is_code_block_false in Hb.
    rewrite walkabout_descend by done. subst n. cbn [children].
    clear Hb. revert v w.
    induction IH as [|c cs Hc _ IHcs]; intros v w; simpl.
    + exists v, []. rewrite app_nil_r. split; [done|].
      split; [apply traversed_nil|done].
    + rewrite blocks_outcomes_app. specialize (Hc v w).
      destruct (blocks_outcomes E _ (temp_count w) (code_blocks c))
        as [[r1 k1]|].
      * destruct Hc as (v1 & evs1 & -> & Ht1 & ->).
        specialize (IHcs v1 (w ++ evs1)).
        destruct Ht1 as (Hs1 & Hrest1). rewrite Hs1 in IHcs.
        destruct (blocks_outcomes E _ (temp_count (w ++ evs1))
                                  (flat_map code_blocks cs))
          as [[r2 k2]|].
        -- destruct IHcs as (v2 & evs2 & H2 & Ht2 & ->).
           rewrite_run H2. exists v2, (evs1 ++ evs2).
           rewrite app_assoc. split; [done|]. split; [|done].
           eapply traversed_app; [|done]. by split.
        -- destruct IHcs as (e & s' & H2). rewrite_run H2. by exists e, s'.
      * destruct Hc as (e & s' & ->). by exists e, s'.
Qed.

(** ** Traces of a traversal *)

Lemma checked_trace_mono strict (wr wr' : list string) evs :
  (∀ x, x ∈ wr → x ∈ wr') →
  checked_trace strict wr evs → checked_trace strict wr' evs.
Proof.
  revert wr wr'. induction evs as [|e evs IH]; intros wr wr' Hsub; [done|].
  destruct e; simpl; try done; try (by apply IH).
  - apply IH. intros x [->|Hx]%elem_of_cons; [by left|right; auto].
  - intros [(name & Hc & Hin) Hrest]. split; [by eauto|]. by eapply IH.
Qed.

Lemma checked_trace_app strict wr evs1 evs2 :
  checked_trace strict wr evs1 →
  checked_trace strict [] evs2 →
  checked_trace strict wr (evs1 ++ evs2).
Proof.
  revert wr. induction evs1 as [|e evs1 IH]; intros wr H1 H2; simpl.
  - eapply checked_trace_mono; [|done]. set_solver.
  - destruct e; simpl in *; try done; try (by apply IH).
    destruct H1 as [Hc Hrest]. split; [done|]. by apply IH.
Qed.

Lemma checked_trace_spawn strict wr evs pre argv post :
  checked_trace strict wr evs →
  evs = pre ++ Spawn argv :: post →
  ∃ name, registry_command strict argv name
          ∧ (name ∈ wr ∨ ∃ text, TempWrite name text ∈ pre).
Proof.
  revert wr evs. induction pre as [|e pre IH]; intros wr evs Hevs ->.
  - simpl in Hevs. destruct Hevs as [(name & Hc & Hin) _]. eauto.
  - assert (Hstep :
      ∀ wr', checked_trace strict wr' (pre ++ Spawn argv :: post) →
             (∀ x, x ∈ wr' →
                   x ∈ wr ∨ ∃ text, TempWrite x text ∈ e :: pre) →
             ∃ name,
               registry_command strict argv name
               ∧ (name ∈ wr
                  ∨ ∃ text, TempWrite name text ∈ e :: pre)).
    { intros wr' Htr Hwr'.
      destruct (IH wr' _ Htr eq_refl) as (name & Hc & [Hin|[text Hin]]).
      - exists name. split; [done|]. by apply Hwr'.
      - exists name. split; [done|]. right. exists text. set_solver. }
    destruct e; simpl in Hevs; try done;
      try (apply (Hstep wr); [done|by left]).
    + apply (Hstep (name :: wr)); [done|].
      intros x [->|Hx]%elem_of_cons; [|by left].
      right. exists text. set_solver.
    + destruct Hevs as [_ Hrest]. apply (Hstep wr); [done|by left].
Qed.

Lemma checked_trace_opened strict wr evs :
  checked_trace strict wr evs → opened_of evs = [].
Proof.
  revert wr. induction evs as [|e evs IH]; intros wr; [done|].
  destruct e; simpl; try done; try (by apply IH).
  intros [_ Hrest]. by eapply IH.
Qed.

Lemma registry_command_of strict lang ext args name :
  checkers_get (error_flag strict) lang = Some (ext, args) →
  registry_command strict (args ++ [name]) name.
Proof.
  destruct lang as [tag|]; [|discriminate]. simpl. intros H.
  by exists tag, ext, args.
Qed.

Lemma check_failure_trace E strict k lang ext args text e evs :
  checkers_get (error_flag strict) lang = Some (ext, args) →
  check_failure E k ext args text = Some (e, evs) →
  checked_trace strict [] evs
  ∧ ((∃ msg, e = OSError msg) ∨ (∃ msg, e = IOError msg)).
Proof.
  intros Hr. unfold check_failure. intros Hcf.
  repeat case_match; simplify_eq; simpl; (split; [|by eauto]); try done.
  split; [|done]. eexists. split; [by eapply registry_command_of|].
  set_solver.
Qed.

Lemma framed_refl v : framed v v [].
Proof.
  repeat split. exists []. by rewrite app_nil_r.
Qed.

Lemma framed_trans v1 v2 v3 evs1 evs2 :
  framed v1 v2 evs1 → framed v2 v3 evs2 → framed v1 v3 (evs1 ++ evs2).
Proof.
  intros (Hs1 & Hf1 & [r1 Hr1] & Ht1) (Hs2 & Hf2 & [r2 Hr2] & Ht2).
  repeat split; [congruence..| |].
  - exists (r1 ++ r2). by rewrite Hr2, Hr1, app_assoc.
  - apply checked_trace_app; [done|]. by rewrite <- Hs1.
Qed.

(** One visit: the visitor object and the events are framed, and the
    visit returns, ends with [SkipNode] or raises an error of the
    temporary-file facility, of the launch or of the decoding. *)
Lemma visit_framed (E : Platform) (n : node) (v : CheckTranslator.t)
    (w : World) :
  ∃ r v' evs,
    CheckTranslator.visit_literal_block E n (v, w) = (r, (v', w ++ evs))
    ∧ framed v v' evs
    ∧ match r with
      | Returned _ => True
      | Raised SkipNode => True
      | Raised (OSError _) => True
      | Raised (IOError _) => True
      | Raised (UnicodeDecodeError _) => True
      | Raised _ => False
      end.
Proof.
  destruct (node_has_class n (ClassName "code-block")) eqn:Hc.
  2:{ exists (Returned tt), v, []. rewrite app_nil_r.
      split; [by apply visit_other|]. split; [apply framed_refl|done]. }
  destruct (checkers_get (error_flag (CheckTranslator.strict_warnings v))
                         (language n)) as [[ext args]|] eqn:Hr.
  2:{ eexists _, _, _. split; [by apply visit_unknown|]. split; [|done].
      destruct (CheckTranslator.strict_warnings v) eqn:Hs.
      - repeat split; simpl; try done. by eexists.
      - repeat split; simpl; try done. exists []. by rewrite app_nil_r. }
  assert (Hlaunch : ∀ name tail,
             checked_trace (CheckTranslator.strict_warnings v) [] tail →
             checked_trace (CheckTranslator.strict_warnings v) []
               (launch_events E name (rawsource n) args ++ tail)).
  { intros name tail Htail. apply checked_trace_app; [|done]. simpl.
    split; [|done]. eexists. split; [by eapply registry_command_of|].
    by apply list_elem_of_singleton. }
  destruct (visit_registered E n v w ext args Hc Hr)
    as [(e & evs & Hf & Hv)
       |[(name & rc & so & se & msg & Hn & Hw & Hp & Hd & Hv)
        |(name & rc & out & err & Hn & Hw & Hp & Hv)]].
  - destruct (check_failure_trace _ _ _ _ _ _ _ _ _ Hr Hf) as [Htr He].
    exists (Raised e), v, evs. split; [done|]. split.
    + repeat split; try done. exists []. by rewrite app_nil_r.
    + by destruct He as [[m ->]|[m ->]].
  - eexists _, _, _. split; [exact Hv|]. split; [|done].
    split; [done|]. split; [done|].
    split; [exists []; by rewrite app_nil_r|].
    specialize (Hlaunch name [] I). by rewrite app_nil_r in Hlaunch.
  - eexists _, _, _. split; [exact Hv|]. split; [|done].
    split; [done|]. split; [done|]. split; [by eexists|].
    apply Hlaunch. by destruct (rc =? 0)%Z.
Qed.

Lemma walk_children_framed (E : Platform) (cs : list node) :
  Forall (λ n, ∀ v w, ∃ r v' evs,
            CheckTranslator.walkabout E n (v, w) = (r, (v', w ++ evs))
            ∧ framed v v' evs ∧ walk_result r) cs →
  ∀ v w, ∃ r v' evs,
    CheckTranslator.walk_children E cs (v, w) = (r, (v', w ++ evs))
    ∧ framed v v' evs ∧ walk_result r.
Proof.
  induction 1 as [|c cs Hc _ IH]; intros v w; simpl.
  - exists (Returned false), v, []. rewrite app_nil_r.
    split; [done|]. split; [apply framed_refl|done].
  - destruct (Hc v w) as (r1 & v1 & evs1 & -> & Hf1 & Hr1).
    destruct r1 as [[|]|e]; [done| |]; cbv beta iota.
    + destruct (IH v1 (w ++ evs1)) as (r2 & v2 & evs2 & H2 & Hf2 & Hr2).
      rewrite_run H2.
      exists r2, v2, (evs1 ++ evs2). rewrite app_assoc.
      split; [done|]. split; [by eapply framed_trans|done].
    + exists (Raised e), v1, evs1. done.
Qed.

Lemma walkabout_framed (E : Platform) (n : node) :
  ∀ v w, ∃ r v' evs,
    CheckTranslator.walkabout E n (v, w) = (r, (v', w ++ evs))
    ∧ framed v v' evs ∧ walk_result r.
Proof.
  induction n as [tag cls lang raw ln cs IH] using node_ind.
  set (n := Node tag cls lang raw ln cs). intros v w.
  pose proof (walk_children_framed E cs IH) as Hcs.
  destruct (decide (tagname n = "literal_block")) as [Ht|Ht].
  - rewrite walkabout_code_block by done.
    destruct (visit_framed E n v w) as (r & v1 & evs1 & -> & Hf1 & Hr1).
    destruct r as [[]|e].
    + cbv beta iota. change (children n) with cs.
      destruct (Hcs v1 (w ++ evs1)) as (r2 & v2 & evs2 & H2 & Hf2 & Hr2).
      rewrite_run H2.
      exists r2, v2, (evs1 ++ evs2). rewrite app_assoc.
      split; [by destruct r2|]. split; [by eapply framed_trans|done].
    + destruct e; try done.
      * by exists (Returned false), v1, evs1.
      * by eexists (Raised _), v1, evs1.
      * by eexists (Raised _), v1, evs1.
      * by eexists (Raised _), v1, evs1.
  - rewrite walkabout_descend by (by left). apply Hcs.
Qed.


(** ** One document *)

(** Rewrite the traversal found in the goal with an equation on it. *)
Ltac rewrite_walk H :=
  match goal with
  | |- context [CheckTranslator.walkabout ?E ?n ?s] =>
      match type of H with
      | _ = ?rhs =>
          replace (CheckTranslator.walkabout E n s) with rhs
            by (symmetry; exact H)
      end
  end.

Section Check.

Context (E : Platform).

Lemma report_all_eq (msgs : list string) (w : World) :
  report_all msgs w = (Returned tt, w ++ (Stderr <$> msgs)).
Proof.
  revert w. induction msgs as [|m msgs IH]; intros w; simpl.
  - by rewrite app_nil_r.
  - py_unfold. simpl. fold (report_all msgs). rewrite IH.
    by rewrite <- app_assoc.
Qed.

(** [check] on a file that can be read, in terms of the parse result and
    of the traversal. *)
Lemma check_eq filename strict_rst strict_warnings w contents report r :
  read_file E filename = inl (Decodes contents) →
  parse E filename contents (settings_overrides strict_rst) = (report, r) →
  check E filename strict_rst strict_warnings w
  = let w0 := w ++ [Open filename] ++ (Stderr <$> report) in
    match r with
    | inr msg => (Returned (VBool false), w0)
    | inl document =>
        match CheckTranslator.walkabout E document
                (CheckTranslator.init strict_warnings filename, w0) with
        | (Returned _, (visitor, w')) =>
            (Returned (VList (CheckTranslator.summary visitor)), w')
        | (Raised (SystemMessage _), (_, w')) => (Returned (VBool false), w')
        | (Raised e, (_, w')) => (Raised e, w')
        end
    end.
Proof.
  intros Hread Hparse. unfold check. py_unfold. simpl. rewrite Hread.
  simpl. unfold publish_string. rewrite Hparse. py_unfold. simpl.
  rewrite report_all_eq, <- app_assoc. simpl.
  destruct r as [document|msg]; [|reflexivity].
  unfold CheckWriter.translate. simpl.
  destruct (CheckTranslator.walkabout E document _) as [[b|e] [v w']];
    [reflexivity|].
  by destruct e.
Qed.

Lemma check_unreadable filename strict_rst strict_warnings w msg :
  read_file E filename = inr msg →
  check E filename strict_rst strict_warnings w
  = (Raised (IOError msg), w ++ [Open filename]).
Proof.
  intros Hread. unfold check. py_unfold. simpl. by rewrite Hread.
Qed.

Lemma check_undecodable filename strict_rst strict_warnings w msg :
  read_file E filename = inl (Undecodable msg) →
  check E filename strict_rst strict_warnings w
  = (Raised (UnicodeDecodeError msg), w ++ [Open filename]).
Proof.
  intros Hread. unfold check. py_unfold. simpl. by rewrite Hread.
Qed.

(** [check] against [document_outcomes]: it returns the summary of the
    document exactly when the checks of its code blocks complete. *)
Lemma check_outcomes filename strict_rst strict_warnings w contents
    report document :
  read_file E filename = inl (Decodes contents) →
  parse E filename contents (settings_overrides strict_rst)
    = (report, inl document) →
  match blocks_outcomes E strict_warnings (temp_count w)
                        (code_blocks document) with
  | Some (results, k') =>
      ∃ evs,
        check E filename strict_rst strict_warnings w
        = (Returned (VList results),
           (w ++ [Open filename] ++ (Stderr <$> report)) ++ evs)
        ∧ k' = temp_count ((w ++ [Open filename] ++ (Stderr <$> report))
                           ++ evs)
        ∧ length (spawned_of evs)
          = length (List.filter (known_language strict_warnings)
                                (code_blocks document))
        ∧ temp_count evs
          = length (List.filter (known_language strict_warnings)
                                (code_blocks document))
  | None =>
      ∃ e w',
        check E filename strict_rst strict_warnings w = (Raised e, w')
        ∧ ((∃ msg, e = OSError msg) ∨ (∃ msg, e = IOError msg)
           ∨ (∃ msg, e = UnicodeDecodeError msg))
  end.
Proof.
  intros Hread Hparse.
  rewrite (check_eq _ _ _ _ _ _ _ Hread Hparse). cbv zeta.
  set (w0 := w ++ [Open filename] ++ (Stderr <$> report)).
  assert (Hk : temp_count w0 = temp_count w).
  { unfold w0. rewrite !temp_count_app, temp_count_report.
    unfold temp_count. simpl. lia. }
  pose proof (walkabout_outcomes E document
                (CheckTranslator.init strict_warnings filename) w0) as Hw.
  rewrite Hk in Hw. simpl in Hw.
  destruct (blocks_outcomes E strict_warnings (temp_count w)
                            (code_blocks document)) as [[results k']|].
  - destruct Hw as (v' & evs & H & (_ & _ & Hs & Hp & Ht) & ->).
    exists evs. rewrite_walk H. simpl in Hs. rewrite Hs.
    by repeat split.
  - destruct Hw as (e & [v' w'] & H).
    destruct (walkabout_framed E document
                (CheckTranslator.init strict_warnings filename) w0)
      as (r & v1 & evs & H1 & _ & Hr).
    rewrite H in H1. injection H1 as <- <- ->.
    rewrite_walk H. exists e, (w0 ++ evs).
    destruct e; try done; eauto.
Qed.

End Check.

(** C1 (as amended).  Whenever [check] returns the summary of a document,
    its length is the number of code blocks reached by the traversal
    whose result is recorded: those whose language is in the registry,
    and under strict-warnings also those whose language is not. *)
Theorem outcomes_per_recorded_block (E : Platform)
    (filename contents : string) (strict_rst strict_warnings : bool)
    (report : list string) (document : node) (w w' : World)
    (results : list bool) :
  read_file E filename = inl (Decodes contents) →
  parse E filename contents (settings_overrides strict_rst)
    = (report, inl document) →
  check E filename strict_rst strict_warnings w
    = (Returned (VList results), w') →
  length results
  = length (List.filter (recorded strict_warnings)
                        (code_blocks document)).
Proof.
  intros Hread Hparse Hcheck.
  pose proof (check_outcomes E filename strict_rst strict_warnings w _ _ _
                Hread Hparse) as Hout.
  destruct (blocks_outcomes E strict_warnings (temp_count w)
                            (code_blocks document))
    as [[results' k']|] eqn:Hb.
  - destruct Hout as (evs & Hc & _). rewrite Hc in Hcheck.
    injection Hcheck as -> _.
    by destruct (blocks_outcomes_length _ _ _ _ _ _ Hb).
  - destruct Hout as (e & w1 & Hc & _). by rewrite Hc in Hcheck.
Qed.

Lemma outcomes_per_recorded_block_witness :
  read_file sample "good.rst" = inl (Decodes "good")
  ∧ parse sample "good.rst" "good" (settings_overrides false)
    = ([], inl good_doc)
  ∧ check sample "good.rst" false true []
    = (Returned (VList [true; false; false]),
       snd (check sample "good.rst" false true []))
  ∧ length [true; false; false]
    = length (List.filter (recorded true) (code_blocks good_doc)).
Proof.
  split; [reflexivity|]. split; [reflexivity|].
  split; [vm_compute; reflexivity|].
  apply (outcomes_per_recorded_block sample "good.rst" "good" false true
           [] good_doc [] (snd (check sample "good.rst" false true []))
           [true; false; false]);
    [reflexivity|reflexivity|vm_compute; reflexivity].
Defined.

(** C1 as stated fails: without strict-warnings a block tagged [ruby]
    leaves no entry in the summary, so a document with three code blocks
    has two recorded results. *)
Lemma outcomes_per_block_counterexample :
  ∃ results w',
    check sample "good.rst" false false []
      = (Returned (VList results), w')
    ∧ length (code_blocks good_doc) = 3%nat
    ∧ length results = 2%nat.
Proof. eexists _, _. split; [vm_compute; reflexivity|]. by vm_compute. Qed.

(** ** The run *)

Section Run.

Context (E : Platform).

Lemma check_files_cons args f fs summary w :
  check_files E args (f :: fs) summary w
  = match check E f (strict_rst args) (strict_warnings args) w with
    | (Returned (VList l), w1) => check_files E args fs (summary ++ l) w1
    | (Returned (VBool _), w1) =>
        (Raised (TypeError "'bool' object is not iterable"), w1)
    | (Raised e, w1) => (Raised e, w1)
    end.
Proof.
  simpl. unfold bind at 1.
  by destruct (check E f _ _ w) as [[[b|l]|e] w1].
Qed.

(** A file the parser rejects makes [check] return [False], and the
    [summary += False] of [main] raises. *)
Lemma check_files_parse_failure args f rest summary w contents report msg :
  read_file E f = inl (Decodes contents) →
  parse E f contents (settings_overrides (strict_rst args))
    = (report, inr msg) →
  check_files E args (f :: rest) summary w
  = (Raised (TypeError "'bool' object is not iterable"),
     w ++ [Open f] ++ (Stderr <$> report)).
Proof.
  intros Hread Hparse. rewrite check_files_cons.
  by rewrite (check_eq E _ _ _ _ _ _ _ Hread Hparse).
Qed.

(** When the loop over the files completes, the summary is the
    concatenation of the lists returned by [check], file by file. *)
Lemma check_files_returned args fs summary w summary' w' :
  check_files E args fs summary w = (Returned summary', w') →
  ∃ outcomes,
    summary' = summary ++ concat outcomes
    ∧ Forall2 (λ f l, ∃ wa wb,
                 check E f (strict_rst args) (strict_warnings args) wa
                 = (Returned (VList l), wb))
              fs outcomes.
Proof.
  revert summary w. induction fs as [|f fs IH]; intros summary w.
  - intros [= <- <-]. exists []. split; [by rewrite app_nil_r|constructor].
  - rewrite check_files_cons.
    destruct (check E f _ _ w) as [[[b|l]|e] w1] eqn:Hc;
      [discriminate| |discriminate].
    intros H. destruct (IH _ _ H) as (outcomes & -> & HF).
    exists (l :: outcomes). split; [by rewrite <- app_assoc|].
    constructor; eauto.
Qed.

Lemma count_failures_eq (summary : list bool) :
  count_failures summary = length (List.filter negb summary).
Proof. unfold count_failures. by rewrite length_fmap. Qed.

Lemma print_all_eq (stream : string → event) (lines : list string) w :
  print_all stream lines w = (Returned tt, w ++ (stream <$> lines)).
Proof.
  revert w. induction lines as [|l lines IH]; intros w; simpl.
  - by rewrite app_nil_r.
  - py_unfold. simpl. fold (print_all stream lines). rewrite IH.
    by rewrite <- app_assoc.
Qed.

Lemma main_eq argv w :
  main E argv w
  = match argparse E argv with
    | Exit status out err =>
        (Raised (SystemExit status),
         w ++ (Stdout <$> out) ++ (Stderr <$> err))
    | Namespace f fs strict_rst strict_warnings =>
        let args := {| files := f :: fs; strict_rst := strict_rst;
                       strict_warnings := strict_warnings |} in
        match check_files E args (f :: fs) [] w with
        | (Returned summary, w1) =>
            let failures := count_failures summary in
            (Returned (if (0 <? failures)%nat then 1%Z else 0%Z),
             w1 ++ [Stderr (colored E (pretty failures +:+ " failure(s)")
                              (if (0 <? failures)%nat then RED
                               else GREEN))])
        | (Raised e, w1) => (Raised e, w1)
        end
    end.
Proof.
  unfold main, parse_args. unfold bind at 1.
  destruct (argparse E argv) as [f fs sr sw|status out err].
  - unfold ret at 1. cbv beta iota zeta. unfold bind at 1.
    cbn [files].
    by destruct (check_files E _ (f :: fs) [] w) as [[s|e] w1].
  - unfold bind at 1. rewrite print_all_eq. cbv beta iota.
    unfold bind at 1. rewrite print_all_eq. cbv beta iota.
    by rewrite <- app_assoc.
Qed.

End Run.

(** C2.  On the sample platform the parser rejects [bad.rst] at the strict
    halt level: [check] returns [False], and the run over [bad.rst] and
    [good.rst] ends with an uncaught [TypeError] before [good.rst] is opened
    and without a summary line. *)
Theorem parse_failure_aborts_run :
  check sample "bad.rst" true false []
  = (Returned (VBool false),
     [Open "bad.rst";
      Stderr "bad.rst:1: (INFO/1) Unexpected indentation."])
  ∧ script sample ["--strict-rst"; "bad.rst"; "good.rst"] []
    = (1%Z,
       [Open "bad.rst";
        Stderr "bad.rst:1: (INFO/1) Unexpected indentation.";
        Traceback (TypeError "'bool' object is not iterable")]).
Proof. split; vm_compute; reflexivity. Qed.

(** C3 (as amended).  When the snippet of a code block with a registered
    language cannot be written to a temporary file, or its checker cannot
    be launched, the visit raises the error: nothing is appended to the
    summary, the blocks after it are not visited, and the error leaves the
    traversal of the enclosing node. *)
Theorem launch_failure_propagates (E : Platform) (n : node)
    (v : CheckTranslator.t) (w : World) ext args e evs :
  is_code_block n = true →
  checkers_get (error_flag (CheckTranslator.strict_warnings v)) (language n)
    = Some (ext, args) →
  check_failure E (temp_count w) ext args (rawsource n) = Some (e, evs) →
  e ≠ SkipNode
  ∧ CheckTranslator.visit_literal_block E n (v, w)
    = (Raised e, (v, w ++ evs))
  ∧ (∀ rest, CheckTranslator.walk_children E (n :: rest) (v, w)
             = (Raised e, (v, w ++ evs)))
  ∧ (∀ tag cls lang raw ln rest,
        tag ≠ "literal_block" →
        CheckTranslator.walkabout E (Node tag cls lang raw ln (n :: rest))
                                  (v, w)
        = (Raised e, (v, w ++ evs))).
Proof.
  intros [Ht Hc]%is_code_block_true Hr Hf.
  pose proof (check_failure_not_skip E _ _ _ _ _ _ Hf) as Hne.
  pose proof (visit_failure E n v w ext args e evs Hc Hr Hf) as Hv.
  assert (Hw : ∀ rest, CheckTranslator.walk_children E (n :: rest) (v, w)
                       = (Raised e, (v, w ++ evs))).
  { intros rest. simpl. rewrite walkabout_code_block by done.
    rewrite Hv. by destruct e. }
  repeat split; try done.
  intros tag cls lang raw ln rest Htag.
  rewrite walkabout_descend by (left; done). apply Hw.
Qed.

Lemma launch_failure_propagates_witness :
  is_code_block python_block = true
  ∧ checkers_get (error_flag false) (language python_block)
    = Some (".py", ["python"; "-m"; "compileall"; "-q"])
  ∧ check_failure sample 0 ".py" ["python"; "-m"; "compileall"; "-q"]
                  (rawsource python_block)
    = Some (OSError "[Errno 2] No such file or directory",
            [TempCreate "/tmp/tmp0.py"; TempWrite "/tmp/tmp0.py" "print(1)";
             Stderr "print(1)"; Stderr "Okay";
             Spawn ["python"; "-m"; "compileall"; "-q"; "/tmp/tmp0.py"]])
  ∧ CheckTranslator.walk_children sample [python_block; c_block]
      (CheckTranslator.init false "python.rst", [])
    = (Raised (OSError "[Errno 2] No such file or directory"),
       (CheckTranslator.init false "python.rst",
        [TempCreate "/tmp/tmp0.py"; TempWrite "/tmp/tmp0.py" "print(1)";
         Stderr "print(1)"; Stderr "Okay";
         Spawn ["python"; "-m"; "compileall"; "-q"; "/tmp/tmp0.py"]])).
Proof.
  split; [reflexivity|]. split; [reflexivity|]. split; [reflexivity|].
  apply (launch_failure_propagates sample python_block
           (CheckTranslator.init false "python.rst") [] ".py"
           ["python"; "-m"; "compileall"; "-q"]
           (OSError "[Errno 2] No such file or directory") _);
    reflexivity.
Defined.

(** C3 as stated fails: with no [python] program to launch, the visit of
    the Python block raises [OSError] and records nothing, and the run
    ends with the uncaught error before the C block that follows is
    checked. *)
Lemma launch_failure_counterexample :
  CheckTranslator.visit_literal_block sample python_block
    (CheckTranslator.init false "python.rst", [Open "python.rst"])
  = (Raised (OSError "[Errno 2] No such file or directory"),
     (CheckTranslator.init false "python.rst",
      [Open "python.rst";
       TempCreate "/tmp/tmp0.py"; TempWrite "/tmp/tmp0.py" "print(1)";
       Stderr "print(1)"; Stderr "Okay";
       Spawn ["python"; "-m"; "compileall"; "-q"; "/tmp/tmp0.py"]]))
  ∧ script sample ["python.rst"] []
    = (1%Z,
       [Open "python.rst";
        TempCreate "/tmp/tmp0.py"; TempWrite "/tmp/tmp0.py" "print(1)";
        Stderr "print(1)"; Stderr "Okay";
        Spawn ["python"; "-m"; "compileall"; "-q"; "/tmp/tmp0.py"];
        Traceback (OSError "[Errno 2] No such file or directory")]).
Proof. split; vm_compute; reflexivity. Qed.




(** ** The registry and single blocks *)

(** C7.  The lookup succeeds exactly for the tags [bash], [c], [cpp] and
    [python]; in particular the empty tag has no entry.  Strict-warnings
    appends [-Werror] to the commands of [c] and [cpp] and leaves those of
    [bash] and [python] as they are. *)
Theorem registry_lookup (strict : bool) (tag : string) :
  (is_Some (checkers_get (error_flag strict) (Some tag))
   ↔ tag = "bash" ∨ tag = "c" ∨ tag = "cpp" ∨ tag = "python")
  ∧ checkers_get (error_flag strict) (Some EmptyString) = None
  ∧ checkers_get (error_flag false) (Some "c")
    = Some (".c", ["gcc"; "-fsyntax-only"; "-O3"; "-std=c99"; "-pedantic";
                   "-Wall"; "-Wextra"])
  ∧ checkers_get (error_flag true) (Some "c")
    = Some (".c", ["gcc"; "-fsyntax-only"; "-O3"; "-std=c99"; "-pedantic";
                   "-Wall"; "-Wextra"] ++ ["-Werror"])
  ∧ checkers_get (error_flag false) (Some "cpp")
    = Some (".cpp", ["g++"; "-std=c++0x"; "-pedantic"; "-fsyntax-only";
                     "-O3"; "-Wall"; "-Wextra"])
  ∧ checkers_get (error_flag true) (Some "cpp")
    = Some (".cpp", ["g++"; "-std=c++0x"; "-pedantic"; "-fsyntax-only";
                     "-O3"; "-Wall"; "-Wextra"] ++ ["-Werror"])
  ∧ checkers_get (error_flag strict) (Some "bash")
    = Some (".bash", ["bash"; "-n"])
  ∧ checkers_get (error_flag strict) (Some "python")
    = Some (".py", ["python"; "-m"; "compileall"; "-q"]).
Proof.
  split; [apply checkers_is_Some|].
  destruct strict; repeat split; reflexivity.
Qed.

Lemma String_cons_app c (s1 s2 : string) :
  String c (s1 +:+ s2) = String c s1 +:+ s2.
Proof. reflexivity. Qed.

Lemma lstrip_spec (s : string) :
  ∃ pre, s = pre +:+ lstrip s
         ∧ blank pre = true ∧ starts_blank (lstrip s) = false.
Proof.
  induction s as [|c s (pre & Hs & Hb & Hl)]; [by exists EmptyString|].
  simpl. destruct (isspace c) eqn:Hc.
  - exists (String c pre). rewrite <- String_cons_app, <- Hs.
    split; [done|]. split; [simpl; by rewrite Hc|done].
  - exists EmptyString. by simpl.
Qed.

Lemma rstrip_spec (s : string) :
  ∃ post, s = rstrip s +:+ post
          ∧ blank post = true ∧ ends_blank (rstrip s) = false
          ∧ (starts_blank s = false → starts_blank (rstrip s) = false).
Proof.
  induction s as [|c s (post & Hs & Hb & He & Hl)];
    [by exists EmptyString|].
  simpl. destruct (rstrip s) as [|c2 r] eqn:Hr.
  - change (EmptyString +:+ post) with post in Hs. subst post.
    destruct (isspace c) eqn:Hc.
    + exists (String c s).
      change (EmptyString +:+ String c s) with (String c s).
      split; [done|]. split; [simpl; by rewrite Hc, Hb|]. done.
    + exists s. rewrite <- String_cons_app.
      change (EmptyString +:+ s) with s.
      split; [done|]. by simpl.
  - exists post. rewrite <- String_cons_app, <- Hs. split; [done|]. done.
Qed.

Lemma strip_spec (s : string) : stripped_of s (strip s).
Proof.
  destruct (lstrip_spec s) as (pre & Hs & Hb & Hl).
  destruct (rstrip_spec (lstrip s)) as (post & Hs' & Hb' & He & Hl').
  exists pre, post. unfold strip. rewrite <- Hs'. split; [done|].
  repeat split; try done. by apply Hl'.
Qed.

(** C6 (as amended).  For a code block whose language is in the registry,
    once the snippet is written to the temporary file and the checker
    launched, and when what it wrote on its two streams decodes as
    UTF-8: the raw text is what the file holds, the process
    is started with the command of the registry followed by the file
    name, [True] is recorded exactly when the return code is zero, and
    otherwise [False] is recorded and the last line on standard error
    gives the file name, the line of the node in decimal ([None] when it
    has none) and the diagnostic: standard output, a newline and standard
    error, without the white space at the two ends. *)
Theorem checked_block_outcome (E : Platform) (n : node)
    (v : CheckTranslator.t) (w : World) ext args name rc out err :
  node_has_class n (ClassName "code-block") = true →
  checkers_get (error_flag (CheckTranslator.strict_warnings v)) (language n)
    = Some (ext, args) →
  temp_name E (temp_count w) ext = inl name →
  temp_write E name (rawsource n) = None →
  popen E (args ++ [name]) (rawsource n)
    = inl (rc, Decodes out, Decodes err) →
  ∃ v' w',
    CheckTranslator.visit_literal_block E n (v, w)
      = (Raised SkipNode, (v', w'))
    ∧ TempWrite name (rawsource n) ∈ w'
    ∧ spawned_of w' = spawned_of w ++ [args ++ [name]]
    ∧ CheckTranslator.summary v'
      = CheckTranslator.summary v ++ [bool_decide (rc = 0%Z)]
    ∧ (rc ≠ 0%Z →
       ∃ diagnostic,
         stripped_of (out +:+ NL +:+ err) diagnostic
         ∧ last (stderr_of w')
           = Some (colored E
                     (CheckTranslator.filename v +:+ ":"
                      +:+ match line n with
                          | Some l => pretty l
                          | None => "None"
                          end
                      +:+ ": " +:+ diagnostic) RED)).
Proof.
  intros Hc Hr Ht Hw Hp. eexists _, _. split.
  { by eapply visit_known. }
  split; [set_solver|]. split.
  { rewrite !spawned_of_app. simpl.
    destruct (rc =? 0)%Z; simpl; by rewrite ?app_nil_r. }
  split.
  { simpl. by rewrite eqb_zero_decide. }
  intros Hrc. destruct (Z.eqb_spec rc 0); [done|].
  exists (strip (out +:+ NL +:+ err)). split; [apply strip_spec|].
  rewrite !stderr_of_app. simpl. by rewrite !last_app.
Qed.

Lemma checked_block_outcome_witness :
  let v := CheckTranslator.init false "good.rst" in
  let args := ["g++"; "-std=c++0x"; "-pedantic"; "-fsyntax-only"; "-O3";
               "-Wall"; "-Wextra"] in
  node_has_class cpp_block (ClassName "code-block") = true
  ∧ checkers_get (error_flag false) (language cpp_block)
    = Some (".cpp", args)
  ∧ temp_name sample 0 ".cpp" = inl "/tmp/tmp0.cpp"
  ∧ temp_write sample "/tmp/tmp0.cpp" (rawsource cpp_block) = None
  ∧ popen sample (args ++ ["/tmp/tmp0.cpp"]) (rawsource cpp_block)
    = inl (1%Z, Decodes EmptyString,
           Decodes ("error: expected ';' before '}' token" +:+ NL))
  ∧ CheckTranslator.visit_literal_block sample cpp_block (v, [])
    = (Raised SkipNode,
       (CheckTranslator.appended v false,
        [TempCreate "/tmp/tmp0.cpp";
         TempWrite "/tmp/tmp0.cpp" "int f() { return 0 }";
         Stderr "int f() { return 0 }"; Stderr "Okay";
         Spawn (args ++ ["/tmp/tmp0.cpp"]);
         Stderr "good.rst:9: error: expected ';' before '}' token"]))
  ∧ ∃ v' w',
      CheckTranslator.visit_literal_block sample cpp_block (v, [])
        = (Raised SkipNode, (v', w'))
      ∧ TempWrite "/tmp/tmp0.cpp" (rawsource cpp_block) ∈ w'
      ∧ spawned_of w' = [] ++ [args ++ ["/tmp/tmp0.cpp"]]
      ∧ CheckTranslator.summary v' = [] ++ [bool_decide (1%Z = 0%Z)]
      ∧ (1%Z ≠ 0%Z →
         ∃ diagnostic,
           stripped_of
             (EmptyString +:+ NL
              +:+ ("error: expected ';' before '}' token" +:+ NL))
             diagnostic
           ∧ last (stderr_of w')
             = Some (colored sample
                       ("good.rst" +:+ ":" +:+ pretty 9%Z
                        +:+ ": " +:+ diagnostic) RED)).
Proof.
  intros v args. do 5 (split; [reflexivity|]).
  split; [vm_compute; reflexivity|].
  apply (checked_block_outcome sample cpp_block v [] ".cpp" args
           "/tmp/tmp0.cpp" 1%Z EmptyString
           ("error: expected ';' before '}' token" +:+ NL));
    reflexivity.
Defined.

(** C6 as stated fails: the C compiler ran and returned 1, but what it
    wrote on standard error is not UTF-8; decoding raises, so that no
    result is recorded for the block and no diagnostic is printed. *)
Lemma checked_block_counterexample :
  let v := CheckTranslator.init false "good.rst" in
  let args := ["gcc"; "-fsyntax-only"; "-O3"; "-std=c99"; "-pedantic";
               "-Wall"; "-Wextra"] in
  let msg := "'utf-8' codec can't decode byte 0xe9" in
  checkers_get (error_flag false) (language c_block) = Some (".c", args)
  ∧ popen garbled (args ++ ["/tmp/tmp0.c"]) (rawsource c_block)
    = inl (1%Z, Decodes EmptyString, Undecodable msg)
  ∧ ∃ w',
      CheckTranslator.visit_literal_block garbled c_block (v, [])
        = (Raised (UnicodeDecodeError msg), (v, w'))
      ∧ spawned_of w' = [args ++ ["/tmp/tmp0.c"]]
      ∧ CheckTranslator.summary v = []
      ∧ stderr_of w' = [rawsource c_block; "Okay"].
Proof.
  intros v args msg. split; [reflexivity|]. split; [reflexivity|].
  eexists. split; [vm_compute; reflexivity|].
  repeat split; vm_compute; reflexivity.
Qed.

(** C4 (as amended).  For a code block whose language is in the registry
    and whose checker ran and wrote text, standard error receives the raw
    text of the
    block first and, after it, a red [<file>:<line>: <diagnostic>] line
    exactly when the return code is not zero; what lies between the two is
    at most the [Okay] line.  For a code block whose language is not in
    the registry standard error receives one red [Unknown language] line
    and nothing else, whether or not strict-warnings records a failure. *)
Theorem block_report (E : Platform) (n : node)
    (v : CheckTranslator.t) (w : World) :
  node_has_class n (ClassName "code-block") = true →
  (∀ ext args name rc out err,
      checkers_get (error_flag (CheckTranslator.strict_warnings v))
                   (language n) = Some (ext, args) →
      temp_name E (temp_count w) ext = inl name →
      temp_write E name (rawsource n) = None →
      popen E (args ++ [name]) (rawsource n)
        = inl (rc, Decodes out, Decodes err) →
      ∃ marker w',
        CheckTranslator.visit_literal_block E n (v, w)
          = (Raised SkipNode,
             (CheckTranslator.appended v (bool_decide (rc = 0%Z)), w'))
        ∧ (marker = [] ∨ marker = [colored E "Okay" GREEN])
        ∧ stderr_of w'
          = stderr_of w ++ [rawsource n] ++ marker
            ++ (if bool_decide (rc = 0%Z) then []
                else [colored E
                        (CheckTranslator.filename v +:+ ":"
                         +:+ format_int (line n) +:+ ": "
                         +:+ strip (join NL [out; err])) RED]))
  ∧ (checkers_get (error_flag (CheckTranslator.strict_warnings v))
                  (language n) = None →
     ∃ w',
       CheckTranslator.visit_literal_block E n (v, w)
         = (Raised SkipNode,
            (if CheckTranslator.strict_warnings v
             then CheckTranslator.appended v false else v, w'))
       ∧ stderr_of w'
         = stderr_of w
           ++ [colored E ("Unknown language: " +:+ format_str (language n))
                       RED]).
Proof.
  intros Hc. split.
  - intros ext args name rc out err Hr Ht Hw Hp.
    exists [colored E "Okay" GREEN]. eexists. split; [|split; [by right|]].
    + rewrite (visit_known E n v w _ _ _ _ _ _ Hc Hr Ht Hw Hp).
      rewrite eqb_zero_decide. reflexivity.
    + rewrite !stderr_of_app. simpl.
      by destruct (bool_decide (rc = 0%Z)).
  - intros Hr. eexists. split.
    + by apply visit_unknown.
    + by rewrite stderr_of_app.
Qed.

Lemma block_report_witness :
  let v := CheckTranslator.init true "good.rst" in
  let args := ["g++"; "-std=c++0x"; "-pedantic"; "-fsyntax-only"; "-O3";
               "-Wall"; "-Wextra"; "-Werror"] in
  (node_has_class ruby_block (ClassName "code-block") = true
   ∧ checkers_get (error_flag true) (language ruby_block) = None
   ∧ ∃ w',
       CheckTranslator.visit_literal_block sample ruby_block (v, [])
         = (Raised SkipNode, (CheckTranslator.appended v false, w'))
       ∧ stderr_of w' = [] ++ ["Unknown language: ruby"])
  ∧ (node_has_class cpp_block (ClassName "code-block") = true
     ∧ checkers_get (error_flag true) (language cpp_block)
       = Some (".cpp", args)
     ∧ temp_name sample 0 ".cpp" = inl "/tmp/tmp0.cpp"
     ∧ temp_write sample "/tmp/tmp0.cpp" (rawsource cpp_block) = None
     ∧ popen sample (args ++ ["/tmp/tmp0.cpp"]) (rawsource cpp_block)
       = inl (1%Z, Decodes EmptyString,
              Decodes ("error: expected ';' before '}' token" +:+ NL))
     ∧ ∃ marker w',
         CheckTranslator.visit_literal_block sample cpp_block (v, [])
           = (Raised SkipNode, (CheckTranslator.appended v false, w'))
         ∧ (marker = [] ∨ marker = ["Okay"])
         ∧ stderr_of w'
           = [] ++ ["int f() { return 0 }"] ++ marker
             ++ ["good.rst:9: error: expected ';' before '}' token"]).
Proof.
  intros v args. split.
  - split; [reflexivity|]. split; [reflexivity|].
    apply (block_report sample ruby_block v []); reflexivity.
  - do 5 (split; [reflexivity|]).
    apply (proj1 (block_report sample cpp_block v [] eq_refl)
             ".cpp" args "/tmp/tmp0.cpp" 1%Z EmptyString
             ("error: expected ';' before '}' token" +:+ NL));
      reflexivity.
Defined.

(** C4 as stated fails: the failed C++ block gets the [Okay] line before
    its diagnostic, and the block tagged [ruby], a failure under
    strict-warnings, gets neither its raw text nor a
    [<file>:<line>: <diagnostic>] line. *)
Lemma block_report_counterexample :
  let v := CheckTranslator.init true "good.rst" in
  (∃ v' w',
      CheckTranslator.visit_literal_block sample cpp_block (v, [])
        = (Raised SkipNode, (v', w'))
      ∧ CheckTranslator.summary v' = [false]
      ∧ stderr_of w'
        = ["int f() { return 0 }"; "Okay";
           "good.rst:9: error: expected ';' before '}' token"])
  ∧ (∃ v' w',
        CheckTranslator.visit_literal_block sample ruby_block (v, [])
          = (Raised SkipNode, (v', w'))
        ∧ CheckTranslator.summary v' = [false]
        ∧ stderr_of w' = ["Unknown language: ruby"]).
Proof.
  intros v. split; eexists _, _;
    (split; [vm_compute; reflexivity|split; vm_compute; reflexivity]).
Qed.


(** C10.  A code block without [language] attribute: the language is
    [None], the registry has no entry for it, and the visit takes the
    unknown-language path and ends with [SkipNode], the signal by which
    every visit of a code block ends and which the traversal absorbs. *)
Theorem missing_language_attribute (E : Platform) (n : node)
    (v : CheckTranslator.t) (w : World) :
  is_code_block n = true →
  language n = None →
  let v' := if CheckTranslator.strict_warnings v
            then CheckTranslator.appended v false else v in
  let w' := w ++ [Stderr (colored E "Unknown language: None" RED)] in
  (∀ strict, checkers_get (error_flag strict) (language n) = None)
  ∧ CheckTranslator.visit_literal_block E n (v, w)
    = (Raised SkipNode, (v', w'))
  ∧ CheckTranslator.walkabout E n (v, w) = (Returned false, (v', w')).
Proof.
  intros [Ht Hc]%is_code_block_true Hl v' w'.
  assert (Hr : ∀ strict, checkers_get (error_flag strict) (language n)
                         = None) by (by rewrite Hl).
  assert (Hv : CheckTranslator.visit_literal_block E n (v, w)
               = (Raised SkipNode, (v', w'))).
  { rewrite (visit_unknown E n v w Hc (Hr _)). by rewrite Hl. }
  repeat split; [done..|].
  rewrite walkabout_code_block by done. by rewrite Hv.
Qed.

Lemma missing_language_attribute_witness :
  let n := Node "literal_block" ["code-block"] None "x = 1" (Some 2%Z)
                [Text "x = 1"] in
  let v := CheckTranslator.init true "doc.rst" in
  is_code_block n = true
  ∧ language n = None
  ∧ CheckTranslator.walkabout sample n (v, [])
    = (Returned false,
       (CheckTranslator.appended v false,
        [Stderr "Unknown language: None"])).
Proof.
  intros n v. split; [reflexivity|]. split; [reflexivity|].
  apply (missing_language_attribute sample n v []); reflexivity.
Defined.


(** ** Determinism *)

Lemma checkers_get_cons ef lang ext args :
  checkers_get ef lang = Some (ext, args) → ∃ a args', args = a :: args'.
Proof.
  destruct lang as [tag|]; [|discriminate]. unfold checkers_get, checkers.
  rewrite !lookup_insert. repeat case_decide; rewrite ?lookup_empty;
    intros ?; simplify_eq; eauto.
Qed.

Section Determinism.

Import CheckTranslator.
Context (E : Platform) (Hblind : name_blind E).

Lemma check_failure_blind k1 k2 ext a args text :
  match check_failure E k1 ext (a :: args) text,
        check_failure E k2 ext (a :: args) text with
  | Some (e1, _), Some (e2, _) => e1 = e2
  | None, None =>
      ∃ n1 n2 r,
        temp_name E k1 ext = inl n1 ∧ temp_name E k2 ext = inl n2
        ∧ temp_write E n1 text = None ∧ temp_write E n2 text = None
        ∧ popen E ((a :: args) ++ [n1]) text = inl r
        ∧ popen E ((a :: args) ++ [n2]) text = inl r
  | _, _ => False
  end.
Proof.
  destruct Hblind as (H1 & H2 & H3). unfold check_failure.
  specialize (H1 k1 k2 ext).
  destruct (temp_name E k1 ext) as [n1|m1],
           (temp_name E k2 ext) as [n2|m2]; try done; [|by subst].
  rewrite (H2 n1 n2 text).
  destruct (temp_write E n2 text) as [m|] eqn:Hw; [done|].
  simpl. rewrite (H3 a args n1 n2 text).
  destruct (popen E (a :: args ++ [n2]) text) as [r|m] eqn:Hp; [|done].
  exists n1, n2, r. rewrite (H2 n1 n2 text), (H3 a args n1 n2 text).
  done.
Qed.

Lemma visit_alike (n : node) : alike (visit_literal_block E n).
Proof.
  intros v w1 w2.
  destruct (node_has_class n (ClassName "code-block")) eqn:Hc;
    [|eexists _, _, _, _; split; by apply visit_other].
  destruct (checkers_get (error_flag (strict_warnings v)) (language n))
    as [[ext args]|] eqn:Hr;
    [|eexists _, _, _, _; split; by apply visit_unknown].
  destruct (checkers_get_cons _ _ _ _ Hr) as (a & args' & ->).
  pose proof (check_failure_blind (temp_count w1) (temp_count w2)
                ext a args' (rawsource n)) as Hb.
  destruct (check_failure E (temp_count w1) _ _ _) as [[e1 evs1]|] eqn:Hf1,
           (check_failure E (temp_count w2) _ _ _) as [[e2 evs2]|] eqn:Hf2;
    try done.
  - subst e2. eexists _, _, _, _; split; by eapply visit_failure.
  - destruct Hb as (n1 & n2 & [[rc so] se] & ? & ? & ? & ? & ? & ?).
    destruct (decode_failure so se) as [msg|] eqn:Hd.
    + eexists _, _, _, _; split; by eapply visit_undecodable.
    + destruct (decode_failure_None _ _ Hd) as (out & err & -> & ->).
      eexists _, _, _, _; split; by eapply visit_known.
Qed.

Lemma walkabout_alike (n : node) : alike (walkabout E n).
Proof.
  induction n as [tag cls lang raw ln cs IH] using node_ind.
  set (n := Node tag cls lang raw ln cs).
  assert (Hcs : alike (walk_children E cs)).
  { clear n. induction IH as [|c cs Hc _ IHcs]; intros v w1 w2; simpl.
    - by eexists _, _, _, _.
    - destruct (Hc v w1 w2) as (r & v' & w1' & w2' & -> & ->).
      destruct r as [[|]|e]; [by eexists _, _, _, _| |by eexists _, _, _, _].
      apply IHcs. }
  intros v w1 w2. destruct (is_code_block n) eqn:Hb.
  - apply is_code_block_true in Hb as [Ht Hc].
    rewrite !walkabout_code_block by done.
    destruct (visit_alike n v w1 w2) as (r & v' & w1' & w2' & -> & ->).
    destruct r as [[]|e].
    + destruct (Hcs v' w1' w2') as (r & v'' & w1'' & w2'' & H1 & H2).
      change (children n) with cs. rewrite H1, H2.
      destruct r; by eexists _, _, _, _.
    + destruct e; by eexists _, _, _, _.
  - apply is_code_block_false in Hb.
    rewrite !walkabout_descend by done. apply Hcs.
Qed.

End Determinism.

Section DeterminismRun.

Context (E : Platform) (Hblind : name_blind E).

Lemma check_alike filename strict_rst strict_warnings w1 w2 :
  fst (check E filename strict_rst strict_warnings w1)
  = fst (check E filename strict_rst strict_warnings w2).
Proof.
  destruct (read_file E filename) as [[contents|msg]|msg] eqn:Hread;
    [|by rewrite !(check_undecodable E _ _ _ _ _ Hread)
     |by rewrite !(check_unreadable E _ _ _ _ _ Hread)].
  destruct (parse E filename contents (settings_overrides strict_rst))
    as [report r] eqn:Hparse.
  rewrite !(check_eq E _ _ _ _ _ _ _ Hread Hparse). cbv zeta.
  destruct r as [document|msg]; [|done].
  destruct (walkabout_alike E Hblind document
              (CheckTranslator.init strict_warnings filename)
              (w1 ++ [Open filename] ++ (Stderr <$> report))
              (w2 ++ [Open filename] ++ (Stderr <$> report)))
    as (r & v' & w1' & w2' & H1 & H2).
  rewrite_walk H1. rewrite_walk H2. destruct r as [?|[]]; reflexivity.
Qed.

Lemma check_files_alike args fs summary w1 w2 :
  fst (check_files E args fs summary w1)
  = fst (check_files E args fs summary w2).
Proof.
  revert summary w1 w2.
  induction fs as [|f fs IH]; intros summary w1 w2; [done|].
  rewrite !check_files_cons.
  pose proof (check_alike f (strict_rst args) (strict_warnings args)
                w1 w2) as Hc.
  destruct (check E f _ _ w1) as [r1 w1'], (check E f _ _ w2) as [r2 w2'].
  simpl in Hc. subst r2. destruct r1 as [[b|l]|e]; [done| |done].
  apply IH.
Qed.

Lemma script_alike argv w1 w2 :
  fst (script E argv w1) = fst (script E argv w2).
Proof.
  unfold script. rewrite !main_eq.
  destruct (argparse E argv) as [f fs sr sw|status out err]; [|done].
  cbv zeta.
  set (args := {| files := f :: fs; strict_rst := sr;
                  strict_warnings := sw |}).
  pose proof (check_files_alike args (f :: fs) [] w1 w2) as Hc.
  destruct (check_files E args (f :: fs) [] w1) as [r1 w1'],
           (check_files E args (f :: fs) [] w2) as [r2 w2'].
  simpl in Hc. subst r2. destruct r1 as [s|e]; [done|]. by destruct e.
Qed.

End DeterminismRun.




(** * Further properties *)

(** X1.  Whatever the platform does, and whether the traversal returns
    or raises, it leaves the visitor's settings as they were, only adds
    entries at the end of the summary, and only adds events at the end of
    the trace. *)
Theorem traversal_extends_state (E : Platform) (n : node)
    (v : CheckTranslator.t) (w : World) :
  let res := CheckTranslator.walkabout E n (v, w) in
  CheckTranslator.strict_warnings (fst (snd res))
  = CheckTranslator.strict_warnings v
  ∧ CheckTranslator.filename (fst (snd res)) = CheckTranslator.filename v
  ∧ CheckTranslator.summary v
    `prefix_of` CheckTranslator.summary (fst (snd res))
  ∧ w `prefix_of` snd (snd res).
Proof.
  destruct (walkabout_framed E n v w)
    as (r & v' & evs & Hw & (Hs & Hf & [results Hr] & _) & _).
  cbv zeta. rewrite_run Hw. simpl.
  repeat split; [done..| |]; by eexists.
Qed.

(** X2.  A traversal opens no file, and every process it starts is a
    command of the registry followed by the name of a temporary file that
    was written earlier in the same traversal. *)
Theorem traversal_runs_registry_commands (E : Platform) (n : node)
    (v : CheckTranslator.t) (w : World) :
  ∃ evs,
    snd (snd (CheckTranslator.walkabout E n (v, w))) = w ++ evs
    ∧ opened_of evs = []
    ∧ ∀ pre argv post,
        evs = pre ++ Spawn argv :: post →
        ∃ name text,
          registry_command (CheckTranslator.strict_warnings v) argv name
          ∧ TempWrite name text ∈ pre.
Proof.
  destruct (walkabout_framed E n v w)
    as (r & v' & evs & Hw & (_ & _ & _ & Htr) & _).
  exists evs. rewrite_run Hw. split; [done|].
  split; [by eapply checked_trace_opened|].
  intros pre argv post Hevs.
  destruct (checked_trace_spawn _ _ _ _ _ _ Htr Hevs)
    as (name & Hc & [Hin|[text Hin]]); [set_solver|eauto].
Qed.

Lemma traversal_runs_registry_commands_witness :
  ∃ evs,
    snd (snd (CheckTranslator.walkabout sample good_doc
                (CheckTranslator.init true "good.rst", [])))
    = [] ++ evs
    ∧ opened_of evs = []
    ∧ ∀ pre argv post,
        evs = pre ++ Spawn argv :: post →
        ∃ name text,
          registry_command true argv name ∧ TempWrite name text ∈ pre.
Proof.
  apply (traversal_runs_registry_commands sample good_doc
           (CheckTranslator.init true "good.rst") []).
Defined.

(** X3.  A traversal never ends with the stop flag, and [SkipNode]
    never escapes it; nor does a [SystemMessage] or a [SystemExit] come
    out of it, so that what [check] catches is the parser's. *)
Theorem traversal_result (E : Platform) (n : node)
    (v : CheckTranslator.t) (w : World) :
  match fst (CheckTranslator.walkabout E n (v, w)) with
  | Returned stop => stop = false
  | Raised e =>
      e ≠ SkipNode ∧ (∀ msg, e ≠ SystemMessage msg)
      ∧ (∀ status, e ≠ SystemExit status)
  end.
Proof.
  destruct (walkabout_framed E n v w) as (r & v' & evs & Hw & _ & Hr).
  rewrite_run Hw. simpl. destruct r as [b|e]; [done|].
  by destruct e.
Qed.

(** ** What [check] returns *)

(** X4.  For a file that can be read, [check] returns [False] exactly
    when the parser rejects the text, and then nothing but the opening of
    the file and the parser's report has happened; [check] never lets a
    [SystemMessage] through. *)
Theorem check_false_iff_rejected (E : Platform) (filename : string)
    (strict_rst strict_warnings : bool) (w : World) contents report r :
  read_file E filename = inl (Decodes contents) →
  parse E filename contents (settings_overrides strict_rst) = (report, r) →
  let res := check E filename strict_rst strict_warnings w in
  (fst res = Returned (VBool false) ↔ ∃ msg, r = inr msg)
  ∧ (∀ msg, r = inr msg →
            snd res = w ++ [Open filename] ++ (Stderr <$> report))
  ∧ (∀ msg, fst res ≠ Raised (SystemMessage msg)).
Proof.
  intros Hread Hparse. cbv zeta.
  rewrite (check_eq E _ _ _ _ _ _ _ Hread Hparse). cbv zeta.
  destruct r as [document|msg].
  - destruct (walkabout_framed E document
                (CheckTranslator.init strict_warnings filename)
                (w ++ [Open filename] ++ (Stderr <$> report)))
      as (r & v' & evs & Hw & _ & Hr).
    rewrite_run Hw. destruct r as [b|e]; simpl.
    + split; [|split]; [|done..]. split; [done|]. by intros [? ?].
    + destruct e; try done; simpl;
        (split; [|split]; [|done..]);
        (split; [done|by intros [? ?]]).
  - simpl. split; [|split]; [|done..]. split; eauto.
Qed.

Lemma check_false_iff_rejected_witness :
  let res := check sample "bad.rst" true false [] in
  read_file sample "bad.rst" = inl (Decodes "bad")
  ∧ parse sample "bad.rst" "bad" (settings_overrides true)
    = (["bad.rst:1: (INFO/1) Unexpected indentation."],
       inr "Unexpected indentation.")
  ∧ (fst res = Returned (VBool false)
     ↔ ∃ msg, (inr "Unexpected indentation." : node + string) = inr msg)
  ∧ (∀ msg, (inr "Unexpected indentation." : node + string) = inr msg →
            snd res
            = [] ++ [Open "bad.rst"]
              ++ (Stderr <$> ["bad.rst:1: (INFO/1) Unexpected indentation."]))
  ∧ (∀ msg, fst res ≠ Raised (SystemMessage msg)).
Proof.
  intros res. split; [reflexivity|]. split; [reflexivity|].
  apply (check_false_iff_rejected sample "bad.rst" true false [] "bad"
           ["bad.rst:1: (INFO/1) Unexpected indentation."]
           (inr "Unexpected indentation.")); reflexivity.
Defined.

Lemma walkabout_no_blocks (E : Platform) (n : node) :
  code_blocks n = [] →
  ∀ s, CheckTranslator.walkabout E n s = (Returned false, s).
Proof.
  induction n as [tag cls lang raw ln cs IH] using node_ind.
  set (n := Node tag cls lang raw ln cs).
  rewrite code_blocks_eq. destruct (is_code_block n) eqn:Hb; [done|].
  apply is_code_block_false in Hb. change (children n) with cs.
  intros Hcs s. rewrite walkabout_descend by done.
  change (children n) with cs. clear Hb n. revert s.
  induction IH as [|c cs Hc _ IHcs]; intros s; [done|]. simpl in *.
  apply app_eq_nil in Hcs as [Hc1 Hcs1].
  rewrite (Hc Hc1 s). by apply IHcs.
Qed.

(** X5.  A document in which the traversal finds no code block (an empty
    document, or one with plain literal blocks only) gives the empty
    summary, and nothing happens beyond the opening of the file and the
    parser's report: no temporary file, no process, no line on standard
    error. *)
Theorem document_without_code_blocks (E : Platform) (filename : string)
    (strict_rst strict_warnings : bool) (w : World) contents report
    document :
  read_file E filename = inl (Decodes contents) →
  parse E filename contents (settings_overrides strict_rst)
    = (report, inl document) →
  code_blocks document = [] →
  check E filename strict_rst strict_warnings w
  = (Returned (VList []), w ++ [Open filename] ++ (Stderr <$> report)).
Proof.
  intros Hread Hparse Hnone.
  rewrite (check_eq E _ _ _ _ _ _ _ Hread Hparse). cbv zeta.
  by rewrite (walkabout_no_blocks E document Hnone).
Qed.

Lemma document_without_code_blocks_witness :
  read_file plain_platform "notes.rst" = inl (Decodes "plain")
  ∧ parse plain_platform "notes.rst" "plain" (settings_overrides false)
    = (["notes.rst:3: (INFO/1) Possible title underline."], inl plain_doc)
  ∧ code_blocks plain_doc = []
  ∧ check plain_platform "notes.rst" false true []
    = (Returned (VList []),
       [] ++ [Open "notes.rst"]
       ++ (Stderr <$> ["notes.rst:3: (INFO/1) Possible title underline."])).
Proof.
  split; [reflexivity|]. split; [reflexivity|]. split; [reflexivity|].
  apply (document_without_code_blocks plain_platform "notes.rst" false true
           [] "plain" ["notes.rst:3: (INFO/1) Possible title underline."]
           plain_doc); reflexivity.
Defined.

Lemma visit_code_block_raises (E : Platform) (n : node)
    (s : CheckTranslator.State) :
  node_has_class n (ClassName "code-block") = true →
  ∃ e s', CheckTranslator.visit_literal_block E n s = (Raised e, s').
Proof.
  intros Hc. unfold CheckTranslator.visit_literal_block. rewrite Hc.
  cbn [negb]. unfold bind at 1. unfold CheckTranslator.self at 1.
  cbv beta iota. unfold bind at 1.
  match goal with
  | |- context [match ?c s with _ => _ end] =>
      destruct (c s) as [[a|e] s']
  end; by eexists _, _.
Qed.

(** X6.  The traversal does not look below a code block: whatever
    children the node has, the result, the visitor object and the effects
    are the same. *)
Theorem code_block_children_ignored (E : Platform) tag cls lang raw ln
    (cs cs' : list node) (s : CheckTranslator.State) :
  is_code_block (Node tag cls lang raw ln cs) = true →
  CheckTranslator.walkabout E (Node tag cls lang raw ln cs) s
  = CheckTranslator.walkabout E (Node tag cls lang raw ln cs') s.
Proof.
  intros [Ht Hc]%is_code_block_true.
  rewrite !walkabout_code_block by done.
  change (CheckTranslator.visit_literal_block E
            (Node tag cls lang raw ln cs') s)
    with (CheckTranslator.visit_literal_block E
            (Node tag cls lang raw ln cs) s).
  destruct (visit_code_block_raises E _ s Hc) as (e & s' & ->).
  reflexivity.
Qed.

Lemma code_block_children_ignored_witness :
  is_code_block c_block = true
  ∧ CheckTranslator.walkabout sample c_block
      (CheckTranslator.init false "good.rst", [])
    = CheckTranslator.walkabout sample
        (Node "literal_block" ["code-block"] (Some "c")
              "int main(void) { return 0; }" (Some 4%Z)
              [cpp_block; ruby_block])
        (CheckTranslator.init false "good.rst", []).
Proof.
  split; [reflexivity|].
  apply (code_block_children_ignored sample "literal_block"
           ["code-block"] (Some "c") "int main(void) { return 0; }"
           (Some 4%Z) [Text "int main(void) { return 0; }"]
           [cpp_block; ruby_block]).
  reflexivity.
Defined.

(** ** Results in document order *)

(** X7.  When the check of every code block of a document completes (its
    temporary file is created and written, its checker launched and the
    output decoded), [check] returns the results in document order: for
    each block with a registered language whether its checker, run on
    the temporary file created for that block, returned zero, and under
    strict-warnings [False] for each block with another language. *)
Theorem summary_in_document_order (E : Platform) (filename : string)
    (strict_rst strict_warnings : bool) (w : World) contents report
    document results :
  read_file E filename = inl (Decodes contents) →
  parse E filename contents (settings_overrides strict_rst)
    = (report, inl document) →
  document_outcomes E strict_warnings (temp_count w) document
    = Some results →
  ∃ w', check E filename strict_rst strict_warnings w
        = (Returned (VList results), w').
Proof.
  intros Hread Hparse Hdoc.
  pose proof (check_outcomes E filename strict_rst strict_warnings w _ _ _
                Hread Hparse) as Hout.
  unfold document_outcomes in Hdoc.
  destruct (blocks_outcomes E strict_warnings (temp_count w)
                            (code_blocks document))
    as [[results' k']|]; [|done].
  simpl in Hdoc. injection Hdoc as ->.
  destruct Hout as (evs & Hc & _). by eexists.
Qed.

Lemma summary_in_document_order_witness :
  read_file sample "good.rst" = inl (Decodes "good")
  ∧ parse sample "good.rst" "good" (settings_overrides false)
    = ([], inl good_doc)
  ∧ document_outcomes sample true (temp_count []) good_doc
    = Some [true; false; false]
  ∧ ∃ w', check sample "good.rst" false true []
          = (Returned (VList [true; false; false]), w').
Proof.
  split; [reflexivity|]. split; [reflexivity|]. split; [reflexivity|].
  apply (summary_in_document_order sample "good.rst" false true []
           "good" [] good_doc [true; false; false]); reflexivity.
Defined.

(** X16.  On any platform, whenever [check] returns a list for a file
    that parsed to a document, the check of every code block completed
    and the list is the results in document order: for each block with a
    registered language whether its checker, run on the temporary file
    created for that block, returned zero, and under strict-warnings
    [False] for each block with another language. *)
Theorem returned_summary_in_order (E : Platform) (filename : string)
    (strict_rst strict_warnings : bool) (w w' : World) contents report
    document results :
  read_file E filename = inl (Decodes contents) →
  parse E filename contents (settings_overrides strict_rst)
    = (report, inl document) →
  check E filename strict_rst strict_warnings w
  = (Returned (VList results), w') →
  document_outcomes E strict_warnings (temp_count w) document
  = Some results.
Proof.
  intros Hread Hparse Hcheck.
  pose proof (check_outcomes E filename strict_rst strict_warnings w _ _ _
                Hread Hparse) as Hout.
  unfold document_outcomes.
  destruct (blocks_outcomes E strict_warnings (temp_count w)
                            (code_blocks document))
    as [[results' k']|].
  - destruct Hout as (evs & Hc & _). rewrite Hc in Hcheck.
    by injection Hcheck as -> _.
  - destruct Hout as (e & w1 & Hc & _). by rewrite Hc in Hcheck.
Qed.

Lemma returned_summary_in_order_witness :
  let w' := snd (check sample "good.rst" false true []) in
  read_file sample "good.rst" = inl (Decodes "good")
  ∧ parse sample "good.rst" "good" (settings_overrides false)
    = ([], inl good_doc)
  ∧ check sample "good.rst" false true []
    = (Returned (VList [true; false; false]), w')
  ∧ document_outcomes sample true (temp_count []) good_doc
    = Some [true; false; false].
Proof.
  intros w'. split; [reflexivity|]. split; [reflexivity|].
  split; [vm_compute; reflexivity|].
  apply (returned_summary_in_order sample "good.rst" false true [] w'
           "good" [] good_doc [true; false; false]);
    [reflexivity|reflexivity|vm_compute; reflexivity].
Defined.

(** X8.  On any platform, whenever [check] returns a list for a file
    that parsed to a document, it has created exactly one temporary file
    and started exactly one process for each code block with a
    registered language, and none for any other node. *)
Theorem one_process_per_registered_block (E : Platform)
    (filename : string) (strict_rst strict_warnings : bool)
    (w w' : World) contents report document results :
  read_file E filename = inl (Decodes contents) →
  parse E filename contents (settings_overrides strict_rst)
    = (report, inl document) →
  check E filename strict_rst strict_warnings w
  = (Returned (VList results), w') →
  let registered :=
    length (List.filter (known_language strict_warnings)
                        (code_blocks document)) in
  length (spawned_of w') = (length (spawned_of w) + registered)%nat
  ∧ temp_count w' = (temp_count w + registered)%nat.
Proof.
  intros Hread Hparse Hcheck. cbv zeta.
  pose proof (check_outcomes E filename strict_rst strict_warnings w _ _ _
                Hread Hparse) as Hout.
  destruct (blocks_outcomes E strict_warnings (temp_count w)
                            (code_blocks document))
    as [[results' k']|].
  - destruct Hout as (evs & Hc & _ & Hp & Ht). rewrite Hc in Hcheck.
    injection Hcheck as _ <-.
    rewrite !spawned_of_app, !temp_count_app, !length_app, Hp, Ht.
    change ([Open filename] ++ (Stderr <$> report))
      with (Open filename :: (Stderr <$> report)).
    assert (Hs : spawned_of (Open filename :: (Stderr <$> report)) = []).
    { simpl. apply spawned_of_report. }
    assert (Hc' : temp_count (Open filename :: (Stderr <$> report)) = 0%nat).
    { unfold temp_count. simpl. apply temp_count_report. }
    rewrite Hs, Hc'. simpl. lia.
  - destruct Hout as (e & w1 & Hc & _). by rewrite Hc in Hcheck.
Qed.

Lemma one_process_per_registered_block_witness :
  let w' := snd (check sample "good.rst" false true []) in
  read_file sample "good.rst" = inl (Decodes "good")
  ∧ parse sample "good.rst" "good" (settings_overrides false)
    = ([], inl good_doc)
  ∧ check sample "good.rst" false true []
    = (Returned (VList [true; false; false]), w')
  ∧ length (spawned_of w') = (length (spawned_of []) + 2)%nat
  ∧ temp_count w' = (temp_count [] + 2)%nat.
Proof.
  intros w'. split; [reflexivity|]. split; [reflexivity|].
  split; [vm_compute; reflexivity|].
  apply (one_process_per_registered_block sample "good.rst" false true []
           w' "good" [] good_doc [true; false; false]);
    [reflexivity|reflexivity|vm_compute; reflexivity].
Defined.

(** ** The directive and the class test *)

(** X13.  [node_has_class] with a single name tests membership among
    the classes of the node; with a list of names it holds exactly when
    one of the names is among them, so never for the empty list. *)
Theorem node_has_class_spec (n : node) :
  (∀ c, node_has_class n (ClassName c) = true ↔ c ∈ classes n)
  ∧ (∀ l, node_has_class n (ClassList l) = true
          ↔ ∃ c, c ∈ l ∧ c ∈ classes n)
  ∧ node_has_class n (ClassList []) = false.
Proof.
  assert (Hl : ∀ l, node_has_class n (ClassList l) = true
                    ↔ ∃ c, c ∈ l ∧ c ∈ classes n).
  { intros l. unfold node_has_class. rewrite existsb_exists. split.
    - intros (c & Hin & Hc). exists c.
      split; [by apply list_elem_of_In|by apply bool_decide_eq_true in Hc].
    - intros (c & Hin & Hc). exists c.
      split; [by apply list_elem_of_In|by apply bool_decide_eq_true]. }
  split; [|split; [exact Hl|reflexivity]].
  intros c. change (node_has_class n (ClassName c))
              with (node_has_class n (ClassList [c])).
  rewrite Hl. split.
  - by intros (c' & ->%list_elem_of_singleton & Hc).
  - intros Hc. exists c. split; [by apply list_elem_of_singleton|done].
Qed.



(** ** The files of a run *)

(** [check] opens its file, once, and no other. *)
Lemma check_opened (E : Platform) filename strict_rst strict_warnings w :
  opened_of (snd (check E filename strict_rst strict_warnings w))
  = opened_of w ++ [filename].
Proof.
  destruct (read_file E filename) as [[contents|msg]|msg] eqn:Hread.
  2:{ rewrite (check_undecodable E _ _ _ _ _ Hread). simpl.
      by rewrite opened_of_app. }
  2:{ rewrite (check_unreadable E _ _ _ _ _ Hread). simpl.
      by rewrite opened_of_app. }
  destruct (parse E filename contents (settings_overrides strict_rst))
    as [report r] eqn:Hparse.
  rewrite (check_eq E _ _ _ _ _ _ _ Hread Hparse). cbv zeta.
  assert (Hpre : opened_of (w ++ [Open filename] ++ (Stderr <$> report))
                 = opened_of w ++ [filename]).
  { rewrite !opened_of_app, opened_of_report. done. }
  destruct r as [document|msg]; [|done].
  destruct (walkabout_framed E document
              (CheckTranslator.init strict_warnings filename)
              (w ++ [Open filename] ++ (Stderr <$> report)))
    as (r & v' & evs & Hw & (_ & _ & _ & Htr) & _).
  rewrite_run Hw.
  assert (Hall : opened_of ((w ++ [Open filename] ++ (Stderr <$> report))
                            ++ evs) = opened_of w ++ [filename]).
  { rewrite opened_of_app, Hpre, (checked_trace_opened _ _ _ Htr).
    by rewrite app_nil_r. }
  destruct r as [b|e]; [done|]. by destruct e.
Qed.

Lemma check_files_opened (E : Platform) args fs :
  ∀ summary w, ∃ k : nat,
    (k ≤ length fs)%nat
    ∧ (fs ≠ [] → (1 ≤ k)%nat)
    ∧ opened_of (snd (check_files E args fs summary w))
      = opened_of w ++ take k fs
    ∧ (∀ summary', fst (check_files E args fs summary w)
                   = Returned summary' → k = length fs).
Proof.
  induction fs as [|f fs IH]; intros summary w.
  - exists 0%nat. simpl. by rewrite app_nil_r.
  - rewrite check_files_cons.
    pose proof (check_opened E f (strict_rst args) (strict_warnings args) w)
      as Hop.
    destruct (check E f _ _ w) as [[[b|l]|e] w1]; simpl in *.
    + exists 1%nat. split; [lia|]. split; [done|]. split; [|done].
      rewrite Hop. cbn [take]. by rewrite take_0.
    + destruct (IH (summary ++ l) w1) as (k & Hk & _ & Ho & Hret).
      exists (S k). split; [lia|]. split; [lia|]. split.
      * rewrite Ho, Hop. by rewrite <- app_assoc.
      * intros s' Hs'. by rewrite (Hret s' Hs').
    + exists 1%nat. split; [lia|]. split; [done|]. split; [|done].
      rewrite Hop. cbn [take]. by rewrite take_0.
Qed.

(** X9.  A file that cannot be read ends the run at that file: the
    [IOError] leaves the loop over the files whatever was collected so
    far, nothing is parsed, and a run whose command line starts with such
    a file exits with status 1 after opening only that file. *)
Theorem unreadable_file_aborts_run (E : Platform) (args : Args)
    (argv : list string) (f : string) (rest : list string)
    (summary : list bool) (w : World) (msg : string) :
  read_file E f = inr msg →
  check_files E args (f :: rest) summary w
  = (Raised (IOError msg), w ++ [Open f])
  ∧ (argparse E argv
     = Namespace f rest (strict_rst args) (strict_warnings args) →
     script E argv w = (1%Z, w ++ [Open f] ++ [Traceback (IOError msg)])).
Proof.
  intros Hread.
  assert (Hcf : ∀ args summary, check_files E args (f :: rest) summary w
                                = (Raised (IOError msg), w ++ [Open f])).
  { intros a s. rewrite check_files_cons.
    by rewrite (check_unreadable E _ _ _ _ _ Hread). }
  split; [apply Hcf|]. intros Hargs.
  unfold script. rewrite main_eq, Hargs. cbv zeta. rewrite Hcf.
  by rewrite <- app_assoc.
Qed.

Lemma unreadable_file_aborts_run_witness :
  let args := {| files := ["missing.rst"; "good.rst"]; strict_rst := false;
                 strict_warnings := false |} in
  read_file sample "missing.rst" = inr "No such file or directory"
  ∧ check_files sample args ["missing.rst"; "good.rst"] [true] []
    = (Raised (IOError "No such file or directory"),
       [] ++ [Open "missing.rst"])
  ∧ argparse sample ["missing.rst"; "good.rst"]
    = Namespace "missing.rst" ["good.rst"] false false
  ∧ script sample ["missing.rst"; "good.rst"] []
    = (1%Z, [] ++ [Open "missing.rst"]
            ++ [Traceback (IOError "No such file or directory")]).
Proof.
  intros args.
  destruct (unreadable_file_aborts_run sample args
              ["missing.rst"; "good.rst"] "missing.rst" ["good.rst"]
              [true] [] "No such file or directory" eq_refl) as [H1 H2].
  split; [reflexivity|]. split; [exact H1|].
  split; [reflexivity|]. apply H2. reflexivity.
Defined.

(** X15.  Whatever was collected before, a file that can be read but
    that the parser rejects ends the loop over the files with a
    [TypeError]: [check] returns [False], which cannot be added to the
    list.  No block is visited, the files after it are not opened, and a
    run whose command line starts with such a file exits with status 1
    without a summary line. *)
Theorem rejected_file_aborts_run (E : Platform) (args : Args)
    (argv : list string) (f : string) (rest : list string)
    (summary : list bool) (w : World) contents report msg :
  read_file E f = inl (Decodes contents) →
  parse E f contents (settings_overrides (strict_rst args))
    = (report, inr msg) →
  check_files E args (f :: rest) summary w
  = (Raised (TypeError "'bool' object is not iterable"),
     w ++ [Open f] ++ (Stderr <$> report))
  ∧ (argparse E argv
     = Namespace f rest (strict_rst args) (strict_warnings args) →
     script E argv w
     = (1%Z, w ++ [Open f] ++ (Stderr <$> report)
             ++ [Traceback (TypeError "'bool' object is not iterable")])).
Proof.
  intros Hread Hparse.
  split; [by apply (check_files_parse_failure E _ _ _ _ _ contents _ msg)|].
  intros Hargs. unfold script. rewrite main_eq, Hargs. cbv zeta.
  rewrite (check_files_parse_failure E _ _ _ _ _ contents report msg);
    [|done|done].
  by rewrite <- !app_assoc.
Qed.

Lemma rejected_file_aborts_run_witness :
  let args := {| files := ["bad.rst"; "good.rst"]; strict_rst := true;
                 strict_warnings := true |} in
  let argv := ["--strict-rst"; "--strict-warnings"; "bad.rst"; "good.rst"] in
  let report := ["bad.rst:1: (INFO/1) Unexpected indentation."] in
  read_file sample "bad.rst" = inl (Decodes "bad")
  ∧ parse sample "bad.rst" "bad" (settings_overrides (strict_rst args))
    = (report, inr "Unexpected indentation.")
  ∧ check_files sample args ["bad.rst"; "good.rst"] [true; false] []
    = (Raised (TypeError "'bool' object is not iterable"),
       [] ++ [Open "bad.rst"] ++ (Stderr <$> report))
  ∧ argparse sample argv = Namespace "bad.rst" ["good.rst"] true true
  ∧ script sample argv []
    = (1%Z, [] ++ [Open "bad.rst"] ++ (Stderr <$> report)
            ++ [Traceback (TypeError "'bool' object is not iterable")]).
Proof.
  intros args argv report.
  destruct (rejected_file_aborts_run sample args argv "bad.rst"
              ["good.rst"] [true; false] [] "bad" report
              "Unexpected indentation." eq_refl eq_refl) as [H1 H2].
  split; [reflexivity|]. split; [reflexivity|]. split; [exact H1|].
  split; [reflexivity|]. apply H2. reflexivity.
Defined.

(** X10.  The files the script itself opens are, in the order of the
    command line, the first [k] files named on it, with [k] at least one
    and a file named twice opened again each time; all of them are opened
    when [main] returns, and none when [argparse] ends the run. *)
Theorem files_opened_in_order (E : Platform) (argv : list string)
    (w : World) :
  match argparse E argv with
  | Namespace f fs _ _ =>
      ∃ k : nat,
        (1 ≤ k ≤ length (f :: fs))%nat
        ∧ opened_of (snd (script E argv w))
          = opened_of w ++ take k (f :: fs)
        ∧ (∀ status w', main E argv w = (Returned status, w') →
                        k = length (f :: fs))
  | Exit _ _ _ => opened_of (snd (script E argv w)) = opened_of w
  end.
Proof.
  unfold script. rewrite main_eq.
  destruct (argparse E argv) as [f fs sr sw|status out err].
  - cbv zeta.
    destruct (check_files_opened E
                {| files := f :: fs; strict_rst := sr;
                   strict_warnings := sw |} (f :: fs) [] w)
      as (k & Hk & Hk1 & Ho & Hret).
    exists k. split; [split; [by apply Hk1|done]|].
    destruct (check_files E _ (f :: fs) [] w) as [[s|e] w1]; simpl in *.
    + split.
      * rewrite opened_of_app. simpl. by rewrite app_nil_r.
      * intros _ _ _. by apply (Hret s).
    + split; [|by destruct e].
      destruct e; simpl; try done;
        rewrite opened_of_app; simpl; by rewrite app_nil_r.
  - simpl. rewrite !opened_of_app.
    assert (Hout : opened_of (Stdout <$> out) = []).
    { clear. induction out as [|m out IH]; [done|]. simpl. apply IH. }
    by rewrite Hout, opened_of_report, !app_nil_r.
Qed.

(** ** The exit status *)

Lemma count_failures_zero (summary : list bool) :
  count_failures summary = 0%nat ↔ Forall (λ b, b = true) summary.
Proof.
  rewrite count_failures_eq.
  induction summary as [|b summary IH]; simpl.
  - split; [constructor|done].
  - rewrite Forall_cons. destruct b; simpl.
    + rewrite IH. tauto.
    + split; [lia|]. by intros [? _].
Qed.

(** Neither [check] nor the loop over the files ends the process. *)
Lemma check_no_exit (E : Platform) filename strict_rst strict_warnings w :
  ∀ status, fst (check E filename strict_rst strict_warnings w)
            ≠ Raised (SystemExit status).
Proof.
  intros status.
  destruct (read_file E filename) as [[contents|msg]|msg] eqn:Hread.
  2:{ by rewrite (check_undecodable E _ _ _ _ _ Hread). }
  2:{ by rewrite (check_unreadable E _ _ _ _ _ Hread). }
  destruct (parse E filename contents (settings_overrides strict_rst))
    as [report r] eqn:Hparse.
  rewrite (check_eq E _ _ _ _ _ _ _ Hread Hparse). cbv zeta.
  destruct r as [document|msg]; [|done].
  destruct (walkabout_framed E document
              (CheckTranslator.init strict_warnings filename)
              (w ++ [Open filename] ++ (Stderr <$> report)))
    as (r & v' & evs & Hw & _ & Hr).
  rewrite_run Hw. destruct r as [b|e]; [done|]. by destruct e.
Qed.

Lemma check_files_no_exit (E : Platform) args fs :
  ∀ summary w status,
    fst (check_files E args fs summary w) ≠ Raised (SystemExit status).
Proof.
  induction fs as [|f fs IH]; intros summary w status; [by py_unfold|].
  rewrite check_files_cons.
  pose proof (check_no_exit E f (strict_rst args) (strict_warnings args) w
                status) as Hne.
  destruct (check E f _ _ w) as [[[b|l]|e] w1]; simpl in *;
    [done|apply IH|].
  intros [= ->]. by apply Hne.
Qed.

(** X11.  When [argparse] ends the run (a usage error, no file named,
    [--help]), the process exits with the status [argparse] chose after
    its messages, and no file is checked.  Otherwise the exit status is 0
    or 1, and it is 0 only when every file was checked to the end and
    every entry of the collected summary is [True]. *)
Theorem exit_status_cases (E : Platform) (argv : list string) (w : World) :
  match argparse E argv with
  | Exit status out err =>
      script E argv w = (status, w ++ (Stdout <$> out) ++ (Stderr <$> err))
  | Namespace f fs strict_rst strict_warnings =>
      let args := {| files := f :: fs; strict_rst := strict_rst;
                     strict_warnings := strict_warnings |} in
      (fst (script E argv w) = 0%Z ∨ fst (script E argv w) = 1%Z)
      ∧ (fst (script E argv w) = 0%Z →
         ∃ summary w1,
           check_files E args (f :: fs) [] w = (Returned summary, w1)
           ∧ Forall (λ b, b = true) summary)
  end.
Proof.
  unfold script. rewrite main_eq.
  destruct (argparse E argv) as [f fs sr sw|status out err]; [|done].
  cbv zeta.
  set (args0 := {| files := f :: fs; strict_rst := sr;
                   strict_warnings := sw |}).
  destruct (check_files E args0 (f :: fs) [] w) as [[summary|e] w1] eqn:Hcf;
    simpl.
  - destruct (count_failures summary) as [|k] eqn:Hc; simpl.
    + split; [by left|]. intros _. exists summary, w1.
      split; [done|]. by apply count_failures_zero.
    + split; [by right|]. done.
  - pose proof (check_files_no_exit E args0 (f :: fs) [] w) as Hne.
    rewrite Hcf in Hne. simpl in Hne.
    destruct e; simpl; try (split; [by right|]; done).
    by destruct (Hne status).
Qed.

Lemma files_opened_in_order_witness :
  let argv := ["good.rst"; "python.rst"; "bad.rst"] in
  opened_of (snd (script sample argv [])) = ["good.rst"; "python.rst"]
  ∧ match argparse sample argv with
    | Namespace f fs _ _ =>
        ∃ k : nat,
          (1 ≤ k ≤ length (f :: fs))%nat
          ∧ opened_of (snd (script sample argv []))
            = opened_of [] ++ take k (f :: fs)
          ∧ (∀ status w', main sample argv [] = (Returned status, w') →
                          k = length (f :: fs))
    | Exit _ _ _ => opened_of (snd (script sample argv [])) = opened_of []
    end.
Proof.
  intros argv. split; [vm_compute; reflexivity|].
  apply (files_opened_in_order sample argv []).
Defined.

(** The loop over the files against [files_outcomes]. *)
Lemma check_files_outcomes (E : Platform) args fs :
  ∀ summary w rs,
    files_outcomes E (strict_rst args) (strict_warnings args)
                   (temp_count w) fs = Some rs →
    ∃ w', check_files E args fs summary w = (Returned (summary ++ rs), w').
Proof.
  induction fs as [|f fs IH]; intros summary w rs Hrs.
  - simpl in Hrs. injection Hrs as <-. exists w.
    rewrite app_nil_r. by py_unfold.
  - rewrite check_files_cons. simpl in Hrs.
    destruct (read_file E f) as [[contents|msg]|msg] eqn:Hread;
      [|done..].
    destruct (parse E f contents (settings_overrides (strict_rst args)))
      as [report [document|msg]] eqn:Hparse; [|done].
    pose proof (check_outcomes E f (strict_rst args) (strict_warnings args)
                  w _ _ _ Hread Hparse) as Hout.
    destruct (blocks_outcomes E (strict_warnings args) (temp_count w)
                              (code_blocks document))
      as [[r k']|]; [|done].
    destruct Hout as (evs & Hc & -> & _). rewrite Hc.
    destruct (files_outcomes E (strict_rst args) (strict_warnings args) _ fs)
      as [rs'|] eqn:Hfs; [|done].
    injection Hrs as <-.
    destruct (IH (summary ++ r) _ rs' Hfs) as (w' & Hw').
    exists w'. by rewrite Hw', <- app_assoc.
Qed.

(** X12.  When every file named on the command line can be read and
    parses to a document, and the check of every code block completes
    (temporary file written, checker launched, its output decoded), the
    exit status is 0 exactly when every collected result is [True], and 1
    otherwise. *)
Theorem accepted_documents_exit_zero (E : Platform) (argv : list string)
    (w : World) f fs strict_rst strict_warnings summary :
  argparse E argv = Namespace f fs strict_rst strict_warnings →
  files_outcomes E strict_rst strict_warnings (temp_count w) (f :: fs)
  = Some summary →
  (fst (script E argv w) = 0%Z ↔ Forall (λ b, b = true) summary)
  ∧ (fst (script E argv w) = 0%Z ∨ fst (script E argv w) = 1%Z).
Proof.
  intros Hargs Hsum. unfold script. rewrite main_eq, Hargs. cbv zeta.
  destruct (check_files_outcomes E
              {| files := f :: fs; strict_rst := strict_rst;
                 strict_warnings := strict_warnings |} (f :: fs) [] w
              summary Hsum) as (w' & Hw').
  rewrite Hw'. simpl. rewrite <- count_failures_zero.
  destruct (count_failures summary) as [|k]; simpl.
  - split; [done|by left].
  - split; [|by right]. split; [done|lia].
Qed.

Lemma accepted_documents_exit_zero_witness :
  argparse accepting ["good.rst"; "python.rst"]
  = Namespace "good.rst" ["python.rst"] false false
  ∧ files_outcomes accepting false false (temp_count [])
                   ["good.rst"; "python.rst"]
    = Some [true; true; true; true]
  ∧ fst (script accepting ["good.rst"; "python.rst"] []) = 0%Z
  ∧ (fst (script accepting ["good.rst"; "python.rst"] []) = 0%Z
     ↔ Forall (λ b, b = true) [true; true; true; true])
  ∧ (fst (script accepting ["good.rst"; "python.rst"] []) = 0%Z
     ∨ fst (script accepting ["good.rst"; "python.rst"] []) = 1%Z).
Proof.
  split; [reflexivity|]. split; [vm_compute; reflexivity|].
  split; [vm_compute; reflexivity|].
  apply (accepted_documents_exit_zero accepting
           ["good.rst"; "python.rst"] [] "good.rst" ["python.rst"]
           false false [true; true; true; true]);
    [reflexivity|vm_compute; reflexivity].
Defined.

(** ** Bytes that do not decode *)



(** X18.  A file whose bytes do not decode ends the run at that file:
    the [UnicodeDecodeError] of [read] leaves [check] and the loop over
    the files whatever was collected so far, nothing is parsed, and a run
    whose command line starts with such a file exits with status 1 after
    opening only that file. *)
Theorem undecodable_file_aborts_run (E : Platform) (args : Args)
    (argv : list string) (f : string) (rest : list string)
    (summary : list bool) (w : World) (msg : string) :
  read_file E f = inl (Undecodable msg) →
  check_files E args (f :: rest) summary w
  = (Raised (UnicodeDecodeError msg), w ++ [Open f])
  ∧ (argparse E argv
     = Namespace f rest (strict_rst args) (strict_warnings args) →
     script E argv w
     = (1%Z, w ++ [Open f] ++ [Traceback (UnicodeDecodeError msg)])).
Proof.
  intros Hread.
  assert (Hcf : ∀ args summary,
             check_files E args (f :: rest) summary w
             = (Raised (UnicodeDecodeError msg), w ++ [Open f])).
  { intros a s. rewrite check_files_cons.
    by rewrite (check_undecodable E _ _ _ _ _ Hread). }
  split; [apply Hcf|]. intros Hargs.
  unfold script. rewrite main_eq, Hargs. cbv zeta. rewrite Hcf.
  by rewrite <- app_assoc.
Qed.

Lemma undecodable_file_aborts_run_witness :
  let args := {| files := ["latin1.rst"; "good.rst"]; strict_rst := false;
                 strict_warnings := false |} in
  let msg := "'utf-8' codec can't decode byte 0xe9" in
  read_file sample "latin1.rst" = inl (Undecodable msg)
  ∧ check_files sample args ["latin1.rst"; "good.rst"] [true] []
    = (Raised (UnicodeDecodeError msg), [] ++ [Open "latin1.rst"])
  ∧ argparse sample ["latin1.rst"; "good.rst"]
    = Namespace "latin1.rst" ["good.rst"] false false
  ∧ script sample ["latin1.rst"; "good.rst"] []
    = (1%Z, [] ++ [Open "latin1.rst"]
            ++ [Traceback (UnicodeDecodeError msg)]).
Proof.
  intros args msg.
  destruct (undecodable_file_aborts_run sample args
              ["latin1.rst"; "good.rst"] "latin1.rst" ["good.rst"]
              [true] [] msg eq_refl) as [H1 H2].
  split; [reflexivity|]. split; [exact H1|].
  split; [reflexivity|]. apply H2. reflexivity.
Defined.
